(** * Control-chart sensitizing rules ([control.py])

    A shallow embedding of [controlSensitizingGraph] and the properties of
    its rule scan.

    Number models.  The function is embedded twice.  In the first
    embedding the column is a sequence of real numbers, and mean, standard
    deviation and z-scores are taken in exact arithmetic ([R]); it carries
    the structure of the scan: guards, windows, spans, the order of the
    messages and the flagged indices.  In the second embedding ([Double])
    the numbers are IEEE binary64 values, as the interpreter has them, with
    rounding, underflow, overflow, signed zeros, infinities and NaN; the
    mean and the deviation, which the dataframe library computes, are its
    inputs.  It carries the properties that depend on the machine numbers:
    the test of the deviation and the product test of rule 7.  The sample
    columns [mixed19], [halves17] and [boundary4], on which z-scores are
    read off, have values, means and deviations that binary64 holds without
    rounding.

    Boundary.  Reading the CSV bytes, selecting the column and dropping the
    missing values happen before the scan, and drawing the chart happens
    after it; the embedding starts from the cleaned column [data] and ends
    with the fields of the returned record other than the picture. *)

From Stdlib Require Import Reals Lra Lia.
From stdpp Require Import gmap sorting list.
From Stdlib Require PrimFloat.

(** * The program *)

(** ** Numbers, comparisons and the built-ins the scan uses *)

Definition Rltb (a b : R) : bool := if Rlt_dec a b then true else false.
Definition Rleb (a b : R) : bool := if Rle_dec a b then true else false.
Definition Rgtb (a b : R) : bool := Rltb b a.
Definition Rgeb (a b : R) : bool := Rleb b a.
Definition Reqb (a b : R) : bool := if Req_dec_T a b then true else false.
Definition Rneqb (a b : R) : bool := negb (Reqb a b).

(** [l[lo:hi]] for [0 <= lo <= hi]; like the source slice it is cut short at
    the end of the list. *)
Definition slice {A} (l : list A) (lo hi : nat) : list A :=
  take (hi - lo) (drop lo l).

(** [range(a, b)]. *)
Definition range (a b : nat) : list nat := seq a (b - a).

(** [sum(p(v) for v in window)]: the number of [True]s. *)
Definition tally (p : R → bool) (window : list R) : nat :=
  sum_list ((λ v, Nat.b2n (p v)) <$> window).

(** [w[j]] on a list of numbers.  The windows below always have the length
    the indices need, see [length_slice_full]. *)
Definition at_ (w : list R) (j : nat) : R := nth j w 0%R.

(** ** The column statistics: [data.mean()] and [data.std(ddof=1)] *)

Definition sum_R (l : list R) : R := foldr Rplus 0%R l.

Definition series_mean (l : list R) : R := (sum_R l / INR (length l))%R.

(** Sum of squared deviations from the mean. *)
Definition sum_sq_dev (l : list R) : R :=
  let m := series_mean l in
  sum_R ((λ x, (x - m) * (x - m))%R <$> l).

(** Sample standard deviation with [ddof] delta degrees of freedom; [None]
    is the NaN the library returns when [len <= ddof]. *)
Definition series_std (ddof : nat) (l : list R) : option R :=
  if length l <=? ddof then None
  else Some (sqrt (sum_sq_dev l / INR (length l - ddof))).

(** ** Messages and results *)

(** One constructor per message format, carrying the interpolated values. *)
Inductive message : Type :=
  | Rule1Msg (i : nat) (z : R)
  | Rule2Msg (lo hi : nat)
  | Rule3Msg (lo hi : nat)
  | Rule4Msg (lo hi : nat)
  | Rule5Msg (inc : bool) (lo hi : nat)
  | Rule6Msg (lo hi : nat)
  | Rule7Msg (lo hi : nat)
  | Rule8Msg (lo hi : nat).

Definition msg_rule (m : message) : nat :=
  match m with
  | Rule1Msg _ _ => 1 | Rule2Msg _ _ => 2 | Rule3Msg _ _ => 3
  | Rule4Msg _ _ => 4 | Rule5Msg _ _ _ => 5 | Rule6Msg _ _ => 6
  | Rule7Msg _ _ => 7 | Rule8Msg _ _ => 8
  end.

Definition msg_lo (m : message) : nat :=
  match m with
  | Rule1Msg i _ => i
  | Rule2Msg lo _ | Rule3Msg lo _ | Rule4Msg lo _ | Rule5Msg _ lo _
  | Rule6Msg lo _ | Rule7Msg lo _ | Rule8Msg lo _ => lo
  end.

Definition msg_hi (m : message) : nat :=
  match m with
  | Rule1Msg i _ => i
  | Rule2Msg _ hi | Rule3Msg _ hi | Rule4Msg _ hi | Rule5Msg _ _ hi
  | Rule6Msg _ hi | Rule7Msg _ hi | Rule8Msg _ hi => hi
  end.

(** The two validation failures of the scan, by their error text:
    "Need at least 2 non-missing values to compute std dev." and
    "Standard deviation is 0/NaN; z-scores are undefined.". *)
Inductive error : Type := InsufficientData | DegenerateVariance.

Record analysis : Type := Analysis {
  res_n : nat;
  res_mean : R;
  res_std : R;
  res_problem_points : list nat;
  res_messages : list message
}.

(** [{"ok": False, "error": ...}] or [{"ok": True, ...}]. *)
Inductive result : Type :=
  | Failure (e : error)
  | Success (a : analysis).

Definition ok (r : result) : bool :=
  match r with Failure _ => false | Success _ => true end.

(** ** The scan state: the three accumulators of the loop *)

Record state : Type := State {
  zScores : list R;
  problemPoints : gset nat;
  messages : list message
}.

Definition zScores_append (z : R) (st : state) : state :=
  State (zScores st ++ [z]) (problemPoints st) (messages st).

Definition messages_append (m : message) (st : state) : state :=
  State (zScores st) (problemPoints st) (messages st ++ [m]).

Definition problemPoints_add (i : nat) (st : state) : state :=
  State (zScores st) (problemPoints st ∪ {[ i ]}) (messages st).

Definition problemPoints_update (l : list nat) (st : state) : state :=
  State (zScores st) (problemPoints st ∪ list_to_set l) (messages st).

(** ** The eight rule blocks of the loop body, in source order *)

(** Rule 1: one point outside +/-3. *)
Definition rule1 (i : nat) (z : R) (st : state) : state :=
  if Rgeb (Rabs z) 3 then
    problemPoints_add i (messages_append (Rule1Msg i z) st)
  else st.

(** Rule 2: two of three consecutive points outside +/-2 on the same side. *)
Definition rule2 (i : nat) (st : state) : state :=
  if 2 <=? i then
    let window := slice (zScores st) (i - 2) (i + 1) in
    let pos := tally (λ v, Rgeb v 2) window in
    let neg := tally (λ v, Rleb v (-2)) window in
    if (2 <=? pos) || (2 <=? neg) then
      problemPoints_update (range (i - 2) (i + 1))
        (messages_append (Rule2Msg (i - 2) i) st)
    else st
  else st.

(** Rule 3: four of five beyond +/-1 on the same side. *)
Definition rule3 (i : nat) (st : state) : state :=
  if 4 <=? i then
    let window := slice (zScores st) (i - 4) (i + 1) in
    let pos := tally (λ v, Rgeb v 1) window in
    let neg := tally (λ v, Rleb v (-1)) window in
    if (4 <=? pos) || (4 <=? neg) then
      problemPoints_update (range (i - 4) (i + 1))
        (messages_append (Rule3Msg (i - 4) i) st)
    else st
  else st.

(** Rule 4: eight consecutive on the same side of the center line. *)
Definition rule4 (i : nat) (st : state) : state :=
  if 7 <=? i then
    let window := slice (zScores st) (i - 7) (i + 1) in
    let all_pos := forallb (λ v, Rgtb v 0) window in
    let all_neg := forallb (λ v, Rltb v 0) window in
    if all_pos || all_neg then
      problemPoints_update (range (i - 7) (i + 1))
        (messages_append (Rule4Msg (i - 7) i) st)
    else st
  else st.

(** Rule 5: six steadily increasing or decreasing (raw data). *)
Definition rule5 (data : list R) (i : nat) (st : state) : state :=
  if 5 <=? i then
    let w := slice data (i - 5) (i + 1) in
    let inc := forallb (λ j, Rltb (at_ w j) (at_ w (j + 1))) (range 0 5) in
    let dec := forallb (λ j, Rgtb (at_ w j) (at_ w (j + 1))) (range 0 5) in
    if inc || dec then
      problemPoints_update (range (i - 5) (i + 1))
        (messages_append (Rule5Msg inc (i - 5) i) st)
    else st
  else st.

(** Rule 6: fifteen within +/-1. *)
Definition rule6 (i : nat) (st : state) : state :=
  if 14 <=? i then
    let window := slice (zScores st) (i - 14) (i + 1) in
    if forallb (λ v, Rltb (Rabs v) 1) window then
      problemPoints_update (range (i - 14) (i + 1))
        (messages_append (Rule6Msg (i - 14) i) st)
    else st
  else st.

(** Rule 7: fourteen alternating up/down (raw data). *)
Definition rule7 (data : list R) (i : nat) (st : state) : state :=
  if 13 <=? i then
    let w := slice data (i - 13) (i + 1) in
    let diffs := (λ j, (at_ w (j + 1) - at_ w j)%R) <$> range 0 13 in
    if forallb (λ d, Rneqb d 0) diffs then
      let alternating :=
        forallb (λ j, Rltb (at_ diffs j * at_ diffs (j + 1)) 0) (range 0 12) in
      if alternating then
        problemPoints_update (range (i - 13) (i + 1))
          (messages_append (Rule7Msg (i - 13) i) st)
      else st
    else st
  else st.

(** Rule 8: eight outside +/-1 on both sides. *)
Definition rule8 (i : nat) (st : state) : state :=
  if 7 <=? i then
    let window := slice (zScores st) (i - 7) (i + 1) in
    if forallb (λ v, Rgeb (Rabs v) 1) window
       && existsb (λ v, Rgtb v 0) window
       && existsb (λ v, Rltb v 0) window then
      problemPoints_update (range (i - 7) (i + 1))
        (messages_append (Rule8Msg (i - 7) i) st)
    else st
  else st.

(** ** The loop *)

(** One iteration of [for i, x in enumerate(data)]. *)
Definition step (data : list R) (mean std : R) (i : nat) (x : R)
    (st : state) : state :=
  let z := ((x - mean) / std)%R in
  let st := zScores_append z st in
  let st := rule1 i z st in
  let st := rule2 i st in
  let st := rule3 i st in
  let st := rule4 i st in
  let st := rule5 data i st in
  let st := rule6 i st in
  let st := rule7 data i st in
  let st := rule8 i st in
  st.

(** The iterations over the items [rest] that are still to come, the first
    of them at index [i]. *)
Fixpoint loop (data : list R) (mean std : R) (i : nat) (rest : list R)
    (st : state) : state :=
  match rest with
  | [] => st
  | x :: rest' => loop data mean std (S i) rest' (step data mean std i x st)
  end.

Definition initial : state := State [] ∅ [].

Definition scan (data : list R) (mean std : R) : state :=
  loop data mean std 0 data initial.

(** ** The analysis *)

Definition controlSensitizingGraph (data : list R) : result :=
  if length data <? 2 then Failure InsufficientData
  else
    let mean := series_mean data in
    match series_std 1 data with
    | None => Failure DegenerateVariance
    | Some std =>
        if Reqb std 0 then Failure DegenerateVariance
        else
          let st := scan data mean std in
          let prob := merge_sort (≤) (elements (problemPoints st)) in
          Success {| res_n := length (zScores st);
                     res_mean := mean;
                     res_std := std;
                     res_problem_points := prob;
                     res_messages := messages st |}
    end.

(** ** The points of the chart *)

(** The arguments of the [scatter] calls: the indices and the z-scores for
    the first, and, when there are flagged indices, these and their
    z-scores ([[zScores[i] for i in prob]]) for the second.  The outer
    [None] stands for the [IndexError] of a flagged index outside
    [zScores], the inner one for the second call not being made. *)
Definition chart_points (st : state)
    : option ((list nat * list R) * option (list nat * list R)) :=
  let x := range 0 (length (zScores st)) in
  let prob := merge_sort (≤) (elements (problemPoints st)) in
  match prob with
  | [] => Some ((x, zScores st), None)
  | _ :: _ =>
      ys ← mapM (λ i, zScores st !! i) prob;
      Some ((x, zScores st), Some (prob, ys))
  end.

(** * The program on double-precision numbers *)

(** The same function with the numbers the interpreter computes with: IEEE
    binary64 values, with their rounding, signed zeros, infinities and NaN.
    [data.mean()] and [data.std(ddof=1)] are computed by the dataframe
    library, in an order of summation of its own; the two results are
    inputs here, as they reach the code that follows them. *)
Module Double.
Import PrimFloat.

Definition geb (a b : float) : bool := leb b a.
Definition gtb (a b : float) : bool := ltb b a.
Definition neqb (a b : float) : bool := negb (eqb a b).

Definition tally (p : float → bool) (window : list float) : nat :=
  sum_list ((λ v, Nat.b2n (p v)) <$> window).

Definition at_ (w : list float) (j : nat) : float := nth j w 0%float.

Inductive message : Type :=
  | Rule1Msg (i : nat) (z : float)
  | Rule2Msg (lo hi : nat)
  | Rule3Msg (lo hi : nat)
  | Rule4Msg (lo hi : nat)
  | Rule5Msg (inc : bool) (lo hi : nat)
  | Rule6Msg (lo hi : nat)
  | Rule7Msg (lo hi : nat)
  | Rule8Msg (lo hi : nat).

Definition msg_rule (m : message) : nat :=
  match m with
  | Rule1Msg _ _ => 1 | Rule2Msg _ _ => 2 | Rule3Msg _ _ => 3
  | Rule4Msg _ _ => 4 | Rule5Msg _ _ _ => 5 | Rule6Msg _ _ => 6
  | Rule7Msg _ _ => 7 | Rule8Msg _ _ => 8
  end.

Record analysis : Type := Analysis {
  res_n : nat;
  res_mean : float;
  res_std : float;
  res_problem_points : list nat;
  res_messages : list message
}.

Inductive result : Type :=
  | Failure (e : error)
  | Success (a : analysis).

Definition ok (r : result) : bool :=
  match r with Failure _ => false | Success _ => true end.

Record state : Type := State {
  zScores : list float;
  problemPoints : gset nat;
  messages : list message
}.

Definition zScores_append (z : float) (st : state) : state :=
  State (zScores st ++ [z]) (problemPoints st) (messages st).

Definition messages_append (m : message) (st : state) : state :=
  State (zScores st) (problemPoints st) (messages st ++ [m]).

Definition problemPoints_add (i : nat) (st : state) : state :=
  State (zScores st) (problemPoints st ∪ {[ i ]}) (messages st).

Definition problemPoints_update (l : list nat) (st : state) : state :=
  State (zScores st) (problemPoints st ∪ list_to_set l) (messages st).

(** Rule 1: one point outside +/-3. *)
Definition rule1 (i : nat) (z : float) (st : state) : state :=
  if geb (abs z) 3 then
    problemPoints_add i (messages_append (Rule1Msg i z) st)
  else st.

(** Rule 2: two of three consecutive points outside +/-2 on the same side. *)
Definition rule2 (i : nat) (st : state) : state :=
  if 2 <=? i then
    let window := slice (zScores st) (i - 2) (i + 1) in
    let pos := tally (λ v, geb v 2) window in
    let neg := tally (λ v, leb v (-2)) window in
    if (2 <=? pos) || (2 <=? neg) then
      problemPoints_update (range (i - 2) (i + 1))
        (messages_append (Rule2Msg (i - 2) i) st)
    else st
  else st.

(** Rule 3: four of five beyond +/-1 on the same side. *)
Definition rule3 (i : nat) (st : state) : state :=
  if 4 <=? i then
    let window := slice (zScores st) (i - 4) (i + 1) in
    let pos := tally (λ v, geb v 1) window in
    let neg := tally (λ v, leb v (-1)) window in
    if (4 <=? pos) || (4 <=? neg) then
      problemPoints_update (range (i - 4) (i + 1))
        (messages_append (Rule3Msg (i - 4) i) st)
    else st
  else st.

(** Rule 4: eight consecutive on the same side of the center line. *)
Definition rule4 (i : nat) (st : state) : state :=
  if 7 <=? i then
    let window := slice (zScores st) (i - 7) (i + 1) in
    let all_pos := forallb (λ v, gtb v 0) window in
    let all_neg := forallb (λ v, ltb v 0) window in
    if all_pos || all_neg then
      problemPoints_update (range (i - 7) (i + 1))
        (messages_append (Rule4Msg (i - 7) i) st)
    else st
  else st.

(** Rule 5: six steadily increasing or decreasing (raw data). *)
Definition rule5 (data : list float) (i : nat) (st : state) : state :=
  if 5 <=? i then
    let w := slice data (i - 5) (i + 1) in
    let inc := forallb (λ j, ltb (at_ w j) (at_ w (j + 1))) (range 0 5) in
    let dec := forallb (λ j, gtb (at_ w j) (at_ w (j + 1))) (range 0 5) in
    if inc || dec then
      problemPoints_update (range (i - 5) (i + 1))
        (messages_append (Rule5Msg inc (i - 5) i) st)
    else st
  else st.

(** Rule 6: fifteen within +/-1. *)
Definition rule6 (i : nat) (st : state) : state :=
  if 14 <=? i then
    let window := slice (zScores st) (i - 14) (i + 1) in
    if forallb (λ v, ltb (abs v) 1) window then
      problemPoints_update (range (i - 14) (i + 1))
        (messages_append (Rule6Msg (i - 14) i) st)
    else st
  else st.

(** Rule 7: fourteen alternating up/down (raw data). *)
Definition rule7 (data : list float) (i : nat) (st : state) : state :=
  if 13 <=? i then
    let w := slice data (i - 13) (i + 1) in
    let diffs := (λ j, sub (at_ w (j + 1)) (at_ w j)) <$> range 0 13 in
    if forallb (λ d, neqb d 0) diffs then
      let alternating :=
        forallb (λ j, ltb (mul (at_ diffs j) (at_ diffs (j + 1))) 0)
                (range 0 12) in
      if alternating then
        problemPoints_update (range (i - 13) (i + 1))
          (messages_append (Rule7Msg (i - 13) i) st)
      else st
    else st
  else st.

(** Rule 8: eight outside +/-1 on both sides. *)
Definition rule8 (i : nat) (st : state) : state :=
  if 7 <=? i then
    let window := slice (zScores st) (i - 7) (i + 1) in
    if forallb (λ v, geb (abs v) 1) window
       && existsb (λ v, gtb v 0) window
       && existsb (λ v, ltb v 0) window then
      problemPoints_update (range (i - 7) (i + 1))
        (messages_append (Rule8Msg (i - 7) i) st)
    else st
  else st.

(** One iteration of [for i, x in enumerate(data)]. *)
Definition step (data : list float) (mean std : float) (i : nat) (x : float)
    (st : state) : state :=
  let z := div (sub x mean) std in
  let st := zScores_append z st in
  let st := rule1 i z st in
  let st := rule2 i st in
  let st := rule3 i st in
  let st := rule4 i st in
  let st := rule5 data i st in
  let st := rule6 i st in
  let st := rule7 data i st in
  let st := rule8 i st in
  st.

Fixpoint loop (data : list float) (mean std : float) (i : nat)
    (rest : list float) (st : state) : state :=
  match rest with
  | [] => st
  | x :: rest' => loop data mean std (S i) rest' (step data mean std i x st)
  end.

Definition initial : state := State [] ∅ [].

Definition scan (data : list float) (mean std : float) : state :=
  loop data mean std 0 data initial.

(** The function from the length test on; [mean] and [std] are what
    [data.mean()] and [data.std(ddof=1)] returned. *)
Definition controlSensitizingGraph (data : list float) (mean std : float)
    : result :=
  if length data <? 2 then Failure InsufficientData
  else if eqb std 0 || is_nan std then Failure DegenerateVariance
  else
    let st := scan data mean std in
    let prob := merge_sort (≤) (elements (problemPoints st)) in
    Success {| res_n := length (zScores st);
               res_mean := mean;
               res_std := std;
               res_problem_points := prob;
               res_messages := messages st |}.

(** The thirteen differences that rule 7 takes over a window of fourteen
    values. *)
Definition steps (w : list float) : list float :=
  (λ j, sub (at_ w (j + 1)) (at_ w j)) <$> range 0 13.

(** Two doubles of opposite sign, by comparison with zero. *)
Definition opposite (a b : float) : bool :=
  (ltb a 0 && ltb 0 b) || (ltb 0 a && ltb b 0).

(** Fourteen values that go up and down by [2^-565] (about 1.66e-170),
    followed by a one. *)
Definition tiny15 : list float :=
  [0; 0x1p-565; 0; 0x1p-565; 0; 0x1p-565; 0; 0x1p-565; 0; 0x1p-565;
   0; 0x1p-565; 0; 0x1p-565; 1]%float.

(** Two values of size [2^665] (about 1.5e200): their squared deviations
    overflow. *)
Definition huge2 : list float := [0x1p+665; -0x1p+665]%float.

(** Mean and sample standard deviation of a column of two values, by their
    defining formulas; with two values no order of summation gives another
    result. *)
Definition mean2 (x y : float) : float := div (add x y) 2.

Definition std2 (x y : float) : float :=
  let m := mean2 x y in
  sqrt (div (add (mul (sub x m) (sub x m)) (mul (sub y m) (sub y m))) 1).

(** A constant column. *)
Definition sevens : list float := [7; 7; 7]%float.

(** No message of rule 7 so far. *)
Definition no_rule7 (st : state) : Prop :=
  Forall (λ m, msg_rule m ≠ 7) (messages st).

(** A mean and a deviation for [tiny15]: its values sum to 1 up to
    [7 * 2^-565], and its sample variance is 1/15 up to rounding. *)
Definition tiny15_mean : float := div 1 15.

Definition tiny15_std : float := sqrt (div 1 15).
End Double.

(** * Vocabulary of the properties *)

(** ** Recording messages and their spans *)

(** The state with its two output accumulators emptied. *)
Definition clear (st : state) : state := State (zScores st) ∅ [].

(** The indices a message implicates: its inclusive span. *)
Definition span (m : message) : gset nat :=
  list_to_set (range (msg_lo m) (msg_hi m + 1)).

Definition spans (ms : list message) : gset nat := ⋃ (span <$> ms).

(** Appending the messages [ms] and flagging their spans. *)
Definition record (ms : list message) (st : state) : state :=
  State (zScores st) (problemPoints st ∪ spans ms) (messages st ++ ms).

(** A block is [local] when all it does to a state is to record the
    messages it would emit from the cleared state. *)
Definition local (f : state → state) : Prop :=
  ∀ st, f st = record (messages (f (clear st))) st.

(** ** Z-scores and the messages of an iteration *)

Definition zscore (mean std x : R) : R := ((x - mean) / std)%R.

(** Z-score of point [j] of the column. *)
Definition z_at (data : list R) (mean std : R) (j : nat) : R :=
  zscore mean std (at_ data j).

(** The z-score list once iteration [i] has appended to it, and the scan
    state with that list and nothing recorded. *)
Definition zs_upto (data : list R) (mean std : R) (i : nat) : list R :=
  zscore mean std <$> take (S i) data.

Definition st_at (data : list R) (mean std : R) (i : nat) : state :=
  State (zs_upto data mean std i) ∅ [].

(** The eight blocks of one iteration, after the z-score was appended. *)
Definition rules (data : list R) (i : nat) (z : R) (st : state) : state :=
  rule8 i (rule7 data i (rule6 i (rule5 data i (rule4 i (rule3 i
    (rule2 i (rule1 i z st))))))).

(** The messages of iteration [i], run on the z-scores [zs] up to and
    including index [i]. *)
Definition fired (data : list R) (zs : list R) (i : nat) (z : R)
    : list message :=
  messages (rules data i z (State zs ∅ [])).

(** The messages of the iterations over [rest], the first at index [i],
    when the z-scores so far are [zs]. *)
Fixpoint emitted (data : list R) (mean std : R) (i : nat) (rest zs : list R)
    : list message :=
  match rest with
  | [] => []
  | x :: rest' =>
      let z := zscore mean std x in
      fired data (zs ++ [z]) i z ++ emitted data mean std (S i) rest' (zs ++ [z])
  end.

(** ** The trigger conditions, stated on the points of the trailing window *)

Section Triggers.
(** Raw value and z-score at an index. *)
Variables (x z : nat → R).

(** [j] is one of the [w] points of the window that ends at [i]. *)
Definition in_window (w i j : nat) : Prop := i + 1 - w ≤ j ≤ i.

(** At least [k] of the [w] points of the window have a z-score in [P]. *)
Definition at_least (k w i : nat) (P : R → Prop) : Prop :=
  ∃ J : list nat, NoDup J ∧ length J = k ∧
    ∀ j, j ∈ J → in_window w i j ∧ P (z j).

Definition opposite_sign (a b : R) : Prop :=
  (a < 0 ∧ 0 < b)%R ∨ (0 < a ∧ b < 0)%R.

(** The step from point [j] to point [j + 1]. *)
Definition diff (j : nat) : R := (x (j + 1) - x j)%R.

Definition trigger1 (i : nat) : Prop := (Rabs (z i) >= 3)%R.

Definition trigger2 (i : nat) : Prop :=
  at_least 2 3 i (λ v, v >= 2)%R ∨ at_least 2 3 i (λ v, v <= -2)%R.

Definition trigger3 (i : nat) : Prop :=
  at_least 4 5 i (λ v, v >= 1)%R ∨ at_least 4 5 i (λ v, v <= -1)%R.

Definition trigger4 (i : nat) : Prop :=
  (∀ j, in_window 8 i j → (z j > 0)%R) ∨
  (∀ j, in_window 8 i j → (z j < 0)%R).

Definition increasing (i : nat) : Prop :=
  ∀ j, i - 5 ≤ j < i → (x j < x (j + 1))%R.

Definition decreasing (i : nat) : Prop :=
  ∀ j, i - 5 ≤ j < i → (x j > x (j + 1))%R.

Definition trigger5 (i : nat) : Prop := increasing i ∨ decreasing i.

Definition trigger6 (i : nat) : Prop :=
  ∀ j, in_window 15 i j → (Rabs (z j) < 1)%R.

Definition trigger7 (i : nat) : Prop :=
  (∀ j, i - 13 ≤ j < i → diff j ≠ 0%R) ∧
  (∀ j, i - 13 ≤ j < i - 1 → opposite_sign (diff j) (diff (j + 1))).

Definition trigger8 (i : nat) : Prop :=
  (∀ j, in_window 8 i j → (Rabs (z j) >= 1)%R) ∧
  (∃ j, in_window 8 i j ∧ (z j > 0)%R) ∧
  (∃ j, in_window 8 i j ∧ (z j < 0)%R).

(** Window size of each rule, by rule number. *)
Definition window_size (r : nat) : nat :=
  match r with
  | 1 => 1 | 2 => 3 | 3 => 5 | 4 => 8 | 5 => 6 | 6 => 15 | 7 => 14 | 8 => 8
  | _ => 0
  end.

Definition trigger (r i : nat) : Prop :=
  match r with
  | 1 => trigger1 i | 2 => trigger2 i | 3 => trigger3 i | 4 => trigger4 i
  | 5 => trigger5 i | 6 => trigger6 i | 7 => trigger7 i | 8 => trigger8 i
  | _ => False
  end.
End Triggers.

(** ** Firing *)

(** What it takes for iteration [i] to emit the message [m]. *)
Definition emits (x z : nat → R) (i : nat) (m : message) : Prop :=
  match m with
  | Rule1Msg i' v => i' = i ∧ v = z i ∧ trigger1 z i
  | Rule2Msg lo hi => lo = i - 2 ∧ hi = i ∧ 2 ≤ i ∧ trigger2 z i
  | Rule3Msg lo hi => lo = i - 4 ∧ hi = i ∧ 4 ≤ i ∧ trigger3 z i
  | Rule4Msg lo hi => lo = i - 7 ∧ hi = i ∧ 7 ≤ i ∧ trigger4 z i
  | Rule5Msg inc lo hi =>
      lo = i - 5 ∧ hi = i ∧ 5 ≤ i ∧ trigger5 x i ∧
      (inc = true ↔ increasing x i)
  | Rule6Msg lo hi => lo = i - 14 ∧ hi = i ∧ 14 ≤ i ∧ trigger6 z i
  | Rule7Msg lo hi => lo = i - 13 ∧ hi = i ∧ 13 ≤ i ∧ trigger7 x i
  | Rule8Msg lo hi => lo = i - 7 ∧ hi = i ∧ 7 ≤ i ∧ trigger8 z i
  end.

(** Firing order: by index first, by rule number within an index. *)
Definition before (m1 m2 : message) : Prop :=
  msg_hi m1 < msg_hi m2 ∨
  (msg_hi m1 = msg_hi m2 ∧ msg_rule m1 < msg_rule m2).

(** At most one message, and if so of rule [r] with a span ending at [i]. *)
Definition at_most_one (r i : nat) (ms : list message) : Prop :=
  ms = [] ∨ ∃ m, ms = [m] ∧ msg_rule m = r ∧ msg_hi m = i.

(** Z-score of point [j], with the mean and deviation the run reports. *)
Definition z_of (a : analysis) (data : list R) (j : nat) : R :=
  z_at data (res_mean a) (res_std a) j.

(** Rule [r] fires at index [i]: the run reports a message of rule [r]
    whose span ends at [i]. *)
Definition fires_at (a : analysis) (r i : nat) : Prop :=
  ∃ m, m ∈ res_messages a ∧ msg_rule m = r ∧ msg_hi m = i.

(** ** Valid inputs and sample columns *)

(** A constant column. *)
Definition all_equal (l : list R) : Prop := ∀ x y, x ∈ l → y ∈ l → x = y.

(** A valid input: at least two values, and a sample standard deviation
    that is a positive number. *)
Definition valid (data : list R) : Prop :=
  2 ≤ length data ∧ ∃ s, series_std 1 data = Some s ∧ (0 < s)%R.

Definition monotone6 : list R := [1; 2; 3; 4; 5; 6]%R.

Definition alternating14 : list R :=
  [5; 4; 6; 3; 7; 2; 8; 1; 9; 0; 10; -1; 11; -2]%R.



(** Eight values above the mean followed by eight below it. *)
Definition halves16 : list R :=
  [1; 1; 1; 1; 1; 1; 1; 1; -1; -1; -1; -1; -1; -1; -1; -1]%R.

(** The map [x ↦ c * x + b], a change of unit and origin. *)
Definition affine (c b x : R) : R := (c * x + b)%R.




(** * Proofs *)

(** ** Every rule block only appends messages and their spans *)

Lemma spans_nil : spans [] = ∅.
Proof. reflexivity. Qed.

Lemma spans_app ms1 ms2 : spans (ms1 ++ ms2) = spans ms1 ∪ spans ms2.
Proof. unfold spans. rewrite fmap_app. apply union_list_app_L. Qed.

Lemma spans_singleton m : spans [m] = span m.
Proof. unfold spans. simpl. apply (right_id_L ∅ (∪)). Qed.

Lemma elem_of_spans k ms :
  k ∈ spans ms ↔ ∃ m, m ∈ ms ∧ msg_lo m ≤ k ≤ msg_hi m.
Proof.
  unfold spans. rewrite elem_of_union_list. split.
  - intros (X & HX & Hk). apply list_elem_of_fmap in HX as (m & -> & Hm).
    exists m. split; [done|]. unfold span, range in Hk.
    apply elem_of_list_to_set, elem_of_seq in Hk. lia.
  - intros (m & Hm & Hk). exists (span m). split.
    + apply list_elem_of_fmap. eauto.
    + unfold span, range. apply elem_of_list_to_set, elem_of_seq. lia.
Qed.

Lemma record_nil st : record [] st = st.
Proof.
  destruct st as [zs pp ms]. unfold record. simpl.
  rewrite spans_nil, (right_id_L ∅ (∪)), app_nil_r. reflexivity.
Qed.

Lemma record_record ms1 ms2 st :
  record ms2 (record ms1 st) = record (ms1 ++ ms2) st.
Proof.
  unfold record. simpl.
  rewrite spans_app, (assoc_L (∪)), app_assoc. reflexivity.
Qed.

Lemma clear_record ms st : clear (record ms st) = clear st.
Proof. reflexivity. Qed.

Lemma clear_clear st : clear (clear st) = clear st.
Proof. reflexivity. Qed.

Lemma messages_record_clear ms st : messages (record ms (clear st)) = ms.
Proof. reflexivity. Qed.

Lemma local_compose f g : local f → local g → local (λ st, g (f st)).
Proof.
  intros Hf Hg st.
  rewrite (Hf (clear st)), (Hg (record _ (clear st))), clear_record, clear_clear.
  rewrite record_record, messages_record_clear.
  rewrite (Hf st), (Hg (record _ st)), clear_record, record_record.
  reflexivity.
Qed.

(** What a guarded block does when its test passes. *)
Lemma fire_record m lo hi st :
  msg_lo m = lo → msg_hi m = hi →
  problemPoints_update (range lo (hi + 1)) (messages_append m st)
  = record [m] st.
Proof.
  intros <- <-. unfold problemPoints_update, messages_append, record. simpl.
  rewrite spans_singleton. reflexivity.
Qed.

Lemma fire1_record i z st :
  problemPoints_add i (messages_append (Rule1Msg i z) st)
  = record [Rule1Msg i z] st.
Proof.
  unfold problemPoints_add, messages_append, record. simpl.
  rewrite spans_singleton. unfold span, range. simpl.
  replace (i + 1 - i) with 1 by lia. simpl.
  rewrite (right_id_L ∅ (∪)). reflexivity.
Qed.

Ltac local_block :=
  intros st; cbv zeta; change (zScores (clear st)) with (zScores st);
  repeat match goal with
  | |- context [if ?c then _ else _] => destruct c
  end;
  rewrite ?fire1_record;
  rewrite ?fire_record by reflexivity;
  rewrite ?messages_record_clear;
  first [reflexivity | symmetry; apply record_nil].

Lemma local_rule1 i z : local (rule1 i z).
Proof. unfold rule1. local_block. Qed.

Lemma local_rule2 i : local (rule2 i).
Proof. unfold rule2. local_block. Qed.

Lemma local_rule3 i : local (rule3 i).
Proof. unfold rule3. local_block. Qed.

Lemma local_rule4 i : local (rule4 i).
Proof. unfold rule4. local_block. Qed.

Lemma local_rule5 data i : local (rule5 data i).
Proof. unfold rule5. local_block. Qed.

Lemma local_rule6 i : local (rule6 i).
Proof. unfold rule6. local_block. Qed.

Lemma local_rule7 data i : local (rule7 data i).
Proof. unfold rule7. local_block. Qed.

Lemma local_rule8 i : local (rule8 i).
Proof. unfold rule8. local_block. Qed.

(** ** What one iteration and the whole loop record *)

Lemma local_rules data i z : local (rules data i z).
Proof.
  unfold rules.
  repeat (apply (local_compose _ (rule8 i)); [|apply local_rule8])
  || (apply (local_compose _ (rule7 data i)); [|apply local_rule7])
  || (apply (local_compose _ (rule6 i)); [|apply local_rule6])
  || (apply (local_compose _ (rule5 data i)); [|apply local_rule5])
  || (apply (local_compose _ (rule4 i)); [|apply local_rule4])
  || (apply (local_compose _ (rule3 i)); [|apply local_rule3])
  || (apply (local_compose _ (rule2 i)); [|apply local_rule2]).
  apply local_rule1.
Qed.

Lemma step_record data mean std i x st :
  step data mean std i x st
  = record (fired data (zScores st ++ [zscore mean std x]) i (zscore mean std x))
      (zScores_append (zscore mean std x) st).
Proof.
  unfold step. cbv zeta. fold (zscore mean std x).
  fold (rules data i (zscore mean std x)
          (zScores_append (zscore mean std x) st)).
  apply local_rules.
Qed.

Lemma local_messages f g st :
  local f → local g →
  messages (g (f (clear st)))
  = messages (f (clear st)) ++ messages (g (clear st)).
Proof.
  intros Hf Hg. rewrite (Hg (f (clear st))).
  rewrite (Hf (clear st)) at 1. rewrite clear_record, clear_clear.
  reflexivity.
Qed.

Lemma loop_record data mean std rest : ∀ i st,
  loop data mean std i rest st
  = record (emitted data mean std i rest (zScores st))
      (State (zScores st ++ (zscore mean std <$> rest))
             (problemPoints st) (messages st)).
Proof.
  induction rest as [|x rest IH]; intros i st; simpl.
  - rewrite record_nil, app_nil_r. by destruct st.
  - rewrite IH, step_record. unfold record at 2 3. simpl.
    unfold record. simpl.
    rewrite spans_app, (assoc_L (∪)), <- !app_assoc. reflexivity.
Qed.

Lemma scan_eq data mean std :
  scan data mean std
  = State (zscore mean std <$> data)
          (spans (emitted data mean std 0 data []))
          (emitted data mean std 0 data []).
Proof.
  unfold scan. rewrite loop_record. unfold record, initial. simpl.
  rewrite (left_id_L ∅ (∪)). reflexivity.
Qed.

Lemma elem_of_emitted data mean std m rest : ∀ i zs,
  m ∈ emitted data mean std i rest zs ↔
  ∃ j x, rest !! j = Some x ∧
    m ∈ fired data (zs ++ (zscore mean std <$> take (S j) rest)) (i + j)
          (zscore mean std x).
Proof.
  induction rest as [|x rest IH]; intros i zs; simpl.
  - split; [by intros ?%elem_of_nil|]. by intros (j & y & ? & _).
  - rewrite elem_of_app, IH. split.
    + intros [H|(j & y & Hj & H)].
      * exists 0, x. split; [done|]. simpl.
        by rewrite Nat.add_0_r.
      * exists (S j), y. split; [done|].
        rewrite <- app_assoc in H. simpl in H.
        by replace (i + S j) with (S i + j) by lia.
    + intros ([|j] & y & Hj & H).
      * left. simpl in Hj, H. injection Hj as <-.
        rewrite Nat.add_0_r in H. exact H.
      * right. exists j, y. split; [done|].
        rewrite <- app_assoc.
        by replace (S i + j) with (i + S j) by lia.
Qed.

(** ** Comparisons as propositions *)

Lemma Rltb_true a b : Rltb a b = true ↔ (a < b)%R.
Proof. unfold Rltb. destruct (Rlt_dec a b); split; congruence || done. Qed.

Lemma Rleb_true a b : Rleb a b = true ↔ (a <= b)%R.
Proof. unfold Rleb. destruct (Rle_dec a b); split; congruence || done. Qed.

Lemma Rgtb_true a b : Rgtb a b = true ↔ (a > b)%R.
Proof. unfold Rgtb. rewrite Rltb_true. reflexivity. Qed.

Lemma Rgeb_true a b : Rgeb a b = true ↔ (a >= b)%R.
Proof. unfold Rgeb. rewrite Rleb_true. split; lra. Qed.

Lemma Reqb_true a b : Reqb a b = true ↔ a = b.
Proof. unfold Reqb. destruct (Req_dec_T a b); split; congruence || done. Qed.

Lemma Rneqb_true a b : Rneqb a b = true ↔ a ≠ b.
Proof.
  unfold Rneqb. rewrite negb_true_iff, <- not_true_iff_false, Reqb_true.
  reflexivity.
Qed.

(** ** Windows: slices, indexing and the built-ins over them *)

Lemma at_lookup (l : list R) j x : l !! j = Some x → at_ l j = x.
Proof. apply nth_lookup_Some. Qed.

Lemma lookup_at (l : list R) j : j < length l → l !! j = Some (at_ l j).
Proof.
  intros Hj. destruct (lookup_lt_is_Some_2 l j Hj) as [x Hx].
  by rewrite (at_lookup _ _ _ Hx).
Qed.

Lemma slice_seq (l : list R) lo hi :
  hi ≤ length l → slice l lo hi = at_ l <$> seq lo (hi - lo).
Proof.
  intros Hhi. apply list_eq. intros k. unfold slice.
  rewrite list_lookup_fmap.
  destruct (decide (k < hi - lo)) as [Hk|Hk].
  - rewrite lookup_take_lt, lookup_drop, lookup_seq_lt by lia. simpl.
    apply lookup_at. lia.
  - rewrite lookup_take_ge, lookup_seq_ge by lia. reflexivity.
Qed.

(** A window that ends inside the list has its full length. *)
Lemma length_slice_full (l : list R) lo hi :
  hi ≤ length l → length (slice l lo hi) = hi - lo.
Proof. intros H. rewrite slice_seq by done. by rewrite length_fmap, length_seq. Qed.

Lemma at_fmap_seq (f : nat → R) a n j :
  j < n → at_ (f <$> seq a n) j = f (a + j).
Proof.
  intros Hj. apply at_lookup.
  by rewrite list_lookup_fmap, lookup_seq_lt.
Qed.

Lemma at_fmap_take (f : R → R) (l : list R) k j :
  j < k → k ≤ length l → at_ (f <$> take k l) j = f (at_ l j).
Proof.
  intros Hj Hk. apply at_lookup.
  rewrite list_lookup_fmap, lookup_take_lt, lookup_at by lia. reflexivity.
Qed.

Lemma forallb_fmap {A B} (p : B → bool) (f : A → B) l :
  forallb p (f <$> l) = forallb (λ a, p (f a)) l.
Proof.
  induction l as [|a l IH]; [done|].
  rewrite fmap_cons. cbn [forallb]. by rewrite IH.
Qed.

Lemma existsb_fmap {A B} (p : B → bool) (f : A → B) l :
  existsb p (f <$> l) = existsb (λ a, p (f a)) l.
Proof.
  induction l as [|a l IH]; [done|].
  rewrite fmap_cons. cbn [existsb]. by rewrite IH.
Qed.

Lemma forallb_seq (p : nat → bool) n : ∀ a,
  forallb p (seq a n) = true ↔ ∀ j, a ≤ j < a + n → p j = true.
Proof.
  induction n as [|n IH]; intros a; simpl.
  - split; [|done]. intros _ j Hj. lia.
  - rewrite andb_true_iff, IH. split.
    + intros [Ha H] j Hj. destruct (decide (j = a)) as [->|]; [done|].
      apply H. lia.
    + intros H. split; [apply H; lia|]. intros j Hj. apply H. lia.
Qed.

Lemma existsb_seq (p : nat → bool) n : ∀ a,
  existsb p (seq a n) = true ↔ ∃ j, a ≤ j < a + n ∧ p j = true.
Proof.
  induction n as [|n IH]; intros a; simpl.
  - split; [done|]. intros (j & Hj & _). lia.
  - rewrite orb_true_iff, IH. split.
    + intros [Ha|(j & Hj & H)]; [exists a|exists j]; split; done || lia.
    + intros (j & Hj & H). destruct (decide (j = a)) as [->|]; [by left|].
      right. exists j. split; [lia|done].
Qed.

(** The tally of a test over indexed points reaches [k] exactly when [k]
    distinct points pass it. *)
Lemma tally_filter (p : R → bool) (f : nat → R) (l : list nat) :
  tally p (f <$> l) = length (filter (λ j, p (f j) = true) l).
Proof.
  unfold tally. induction l as [|j l IH]; [done|].
  rewrite !fmap_cons, filter_cons. cbn [sum_list sum_list_with].
  destruct (decide (p (f j) = true)) as [H|H].
  - rewrite H. simpl. by rewrite IH.
  - apply not_true_is_false in H. rewrite H. simpl. by rewrite IH.
Qed.

Lemma tally_at_least (p : R → bool) (f : nat → R) (l : list nat) k :
  NoDup l →
  k ≤ tally p (f <$> l) ↔
  ∃ J : list nat, NoDup J ∧ length J = k ∧
    ∀ j, j ∈ J → j ∈ l ∧ p (f j) = true.
Proof.
  intros Hl. rewrite tally_filter. split.
  - intros Hk. exists (take k (filter (λ j, p (f j) = true) l)).
    split; [|split].
    + eapply sublist_NoDup; [|apply sublist_take]. by apply NoDup_filter.
    + by apply length_take_le.
    + intros j Hj.
      pose proof (elem_of_sublist _ _ _ Hj (sublist_take _ _)) as Hj'.
      by apply list_elem_of_filter in Hj' as [? ?].
  - intros (J & HJ & <- & HP). apply submseteq_length.
    apply NoDup_submseteq; [done|]. intros j Hj.
    apply list_elem_of_filter. destruct (HP j Hj). done.
Qed.

(** ** Products and signs *)

Lemma opposite_sign_mult a b : (a * b < 0)%R ↔ opposite_sign a b.
Proof.
  unfold opposite_sign. split.
  - intros H.
    destruct (Rtotal_order a 0) as [Ha|[->|Ha]];
      destruct (Rtotal_order b 0) as [Hb|[->|Hb]]; try lra; nra.
  - intros [[Ha Hb]|[Ha Hb]]; nra.
Qed.

(** ** The messages of one rule block on the z-scores up to its index *)

Section Blocks.
Variables (data : list R) (mean std : R) (i : nat).
Hypothesis Hi : i < length data.

Local Abbreviation zs := (zs_upto data mean std i).
Local Abbreviation x := (at_ data).
Local Abbreviation z := (z_at data mean std).
Local Abbreviation st0 := (st_at data mean std i).

Lemma length_zs : length zs = i + 1.
Proof. unfold zs. rewrite length_fmap, length_take_le; lia. Qed.

Lemma zslice_seq d :
  d ≤ i → slice zs (i - d) (i + 1) = z <$> seq (i - d) (S d).
Proof.
  intros Hd. rewrite slice_seq by (rewrite length_zs; lia).
  replace (i + 1 - (i - d)) with (S d) by lia.
  apply list_eq. intros k. rewrite !list_lookup_fmap.
  destruct (decide (k < S d)) as [Hk|Hk].
  - rewrite lookup_seq_lt by done. simpl. f_equal. unfold zs, z.
    apply at_fmap_take; lia.
  - rewrite lookup_seq_ge by lia. reflexivity.
Qed.

Lemma dslice_seq d :
  d ≤ i → slice data (i - d) (i + 1) = x <$> seq (i - d) (S d).
Proof.
  intros Hd. rewrite slice_seq by lia.
  by replace (i + 1 - (i - d)) with (S d) by lia.
Qed.

Lemma forallb_zslice (p : R → bool) (P : R → Prop) d :
  (∀ v, p v = true ↔ P v) → d ≤ i →
  forallb p (slice zs (i - d) (i + 1)) = true ↔
  ∀ j, in_window (S d) i j → P (z j).
Proof.
  intros HP Hd. rewrite zslice_seq, forallb_fmap, forallb_seq by done.
  unfold in_window. split; intros H j Hj; apply HP, H; lia.
Qed.

Lemma existsb_zslice (p : R → bool) (P : R → Prop) d :
  (∀ v, p v = true ↔ P v) → d ≤ i →
  existsb p (slice zs (i - d) (i + 1)) = true ↔
  ∃ j, in_window (S d) i j ∧ P (z j).
Proof.
  intros HP Hd. rewrite zslice_seq, existsb_fmap, existsb_seq by done.
  unfold in_window.
  split; intros (j & Hj & H); exists j; (split; [lia|by apply HP]).
Qed.

Lemma tally_zslice (p : R → bool) (P : R → Prop) k d :
  (∀ v, p v = true ↔ P v) → d ≤ i →
  (k <=? tally p (slice zs (i - d) (i + 1))) = true ↔
  at_least z k (S d) i P.
Proof.
  intros HP Hd. rewrite Nat.leb_le, zslice_seq by done.
  rewrite tally_at_least by apply NoDup_seq. unfold at_least, in_window.
  split; intros (J & HJ & Hlen & H); exists J; (split; [done|split; [done|]]);
    intros j Hj; destruct (H j Hj) as [Hin Hp].
  - apply elem_of_seq in Hin. split; [lia|by apply HP].
  - split; [apply elem_of_seq; lia|by apply HP].
Qed.

Lemma steps_dslice (p : R → R → bool) (P : R → R → Prop) d :
  (∀ a b, p a b = true ↔ P a b) → d ≤ i →
  forallb (λ j, p (at_ (slice data (i - d) (i + 1)) j)
                  (at_ (slice data (i - d) (i + 1)) (j + 1)))
          (range 0 d) = true ↔
  ∀ j, i - d ≤ j < i → P (x j) (x (j + 1)).
Proof.
  intros HP Hd. rewrite dslice_seq by done. unfold range.
  rewrite forallb_seq. split.
  - intros H j Hj. specialize (H (j - (i - d))).
    rewrite !at_fmap_seq, HP in H by lia.
    replace (i - d + (j - (i - d) + 1)) with (j + 1) in H by lia.
    replace (i - d + (j - (i - d))) with j in H by lia.
    apply H. lia.
  - intros H j Hj. rewrite !at_fmap_seq, HP by lia.
    replace (i - d + (j + 1)) with (i - d + j + 1) by lia.
    apply H. lia.
Qed.

Local Ltac window_side :=
  first [ lia
        | intros ?;
          first [ apply Rgeb_true | apply Rleb_true
                | apply Rgtb_true | apply Rltb_true ] ].

Lemma if_msgs (c : bool) (f : state) m :
  m ∈ messages (if c then f else st0) ↔ c = true ∧ m ∈ messages f.
Proof.
  destruct c; simpl.
  - split; [by intros ?|by intros [_ ?]].
  - split; [by intros ?%elem_of_nil|]. by intros [? _].
Qed.

Lemma fire_msgs l m0 m :
  m ∈ messages (problemPoints_update l (messages_append m0 st0)) ↔ m = m0.
Proof. simpl. apply list_elem_of_singleton. Qed.

Lemma rule1_msgs m :
  m ∈ messages (rule1 i (z i) st0) ↔ m = Rule1Msg i (z i) ∧ trigger1 z i.
Proof.
  unfold rule1. rewrite if_msgs, Rgeb_true. simpl.
  rewrite list_elem_of_singleton. unfold trigger1. tauto.
Qed.

Lemma rule2_msgs m :
  m ∈ messages (rule2 i st0) ↔
  m = Rule2Msg (i - 2) i ∧ 2 ≤ i ∧ trigger2 z i.
Proof.
  unfold rule2. cbv zeta. change (zScores st0) with zs.
  rewrite !if_msgs, fire_msgs, Nat.leb_le, orb_true_iff. unfold trigger2.
  split.
  - intros (Hg & Hc & ->).
    rewrite (tally_zslice _ (λ v, v >= 2)%R) in Hc by window_side.
    rewrite (tally_zslice _ (λ v, v <= -2)%R) in Hc by window_side.
    done.
  - intros (-> & Hg & Hc).
    rewrite (tally_zslice _ (λ v, v >= 2)%R) by window_side.
    rewrite (tally_zslice _ (λ v, v <= -2)%R) by window_side.
    done.
Qed.

Lemma rule3_msgs m :
  m ∈ messages (rule3 i st0) ↔
  m = Rule3Msg (i - 4) i ∧ 4 ≤ i ∧ trigger3 z i.
Proof.
  unfold rule3. cbv zeta. change (zScores st0) with zs.
  rewrite !if_msgs, fire_msgs, Nat.leb_le, orb_true_iff. unfold trigger3.
  split.
  - intros (Hg & Hc & ->).
    rewrite (tally_zslice _ (λ v, v >= 1)%R) in Hc by window_side.
    rewrite (tally_zslice _ (λ v, v <= -1)%R) in Hc by window_side.
    done.
  - intros (-> & Hg & Hc).
    rewrite (tally_zslice _ (λ v, v >= 1)%R) by window_side.
    rewrite (tally_zslice _ (λ v, v <= -1)%R) by window_side.
    done.
Qed.

Lemma rule4_msgs m :
  m ∈ messages (rule4 i st0) ↔
  m = Rule4Msg (i - 7) i ∧ 7 ≤ i ∧ trigger4 z i.
Proof.
  unfold rule4. cbv zeta. change (zScores st0) with zs.
  rewrite !if_msgs, fire_msgs, Nat.leb_le, orb_true_iff. unfold trigger4.
  split.
  - intros (Hg & Hc & ->).
    rewrite (forallb_zslice _ (λ v, v > 0)%R) in Hc by window_side.
    rewrite (forallb_zslice _ (λ v, v < 0)%R) in Hc by window_side.
    done.
  - intros (-> & Hg & Hc).
    rewrite (forallb_zslice _ (λ v, v > 0)%R) by window_side.
    rewrite (forallb_zslice _ (λ v, v < 0)%R) by window_side.
    done.
Qed.

Lemma rule6_msgs m :
  m ∈ messages (rule6 i st0) ↔
  m = Rule6Msg (i - 14) i ∧ 14 ≤ i ∧ trigger6 z i.
Proof.
  unfold rule6. cbv zeta. change (zScores st0) with zs.
  rewrite !if_msgs, fire_msgs, Nat.leb_le. unfold trigger6.
  split.
  - intros (Hg & Hc & ->).
    rewrite (forallb_zslice _ (λ v, Rabs v < 1)%R) in Hc by window_side.
    done.
  - intros (-> & Hg & Hc).
    rewrite (forallb_zslice _ (λ v, Rabs v < 1)%R) by window_side.
    done.
Qed.

Lemma rule8_msgs m :
  m ∈ messages (rule8 i st0) ↔
  m = Rule8Msg (i - 7) i ∧ 7 ≤ i ∧ trigger8 z i.
Proof.
  unfold rule8. cbv zeta. change (zScores st0) with zs.
  rewrite !if_msgs, fire_msgs, Nat.leb_le, !andb_true_iff. unfold trigger8.
  split.
  - intros (Hg & Hc & ->).
    rewrite (forallb_zslice _ (λ v, Rabs v >= 1)%R) in Hc by window_side.
    rewrite (existsb_zslice _ (λ v, v > 0)%R) in Hc by window_side.
    rewrite (existsb_zslice _ (λ v, v < 0)%R) in Hc by window_side.
    tauto.
  - intros (-> & Hg & Hc).
    rewrite (forallb_zslice _ (λ v, Rabs v >= 1)%R) by window_side.
    rewrite (existsb_zslice _ (λ v, v > 0)%R) by window_side.
    rewrite (existsb_zslice _ (λ v, v < 0)%R) by window_side.
    tauto.
Qed.

Lemma rule5_msgs m :
  m ∈ messages (rule5 data i st0) ↔
  ∃ inc : bool, m = Rule5Msg inc (i - 5) i ∧ 5 ≤ i ∧ trigger5 x i ∧
    (inc = true ↔ increasing x i).
Proof.
  unfold rule5. cbv zeta.
  rewrite !if_msgs, fire_msgs, Nat.leb_le, orb_true_iff.
  unfold trigger5.
  split.
  - intros (Hg & Hc & ->). eexists. split; [reflexivity|].
    rewrite (steps_dslice Rltb Rlt), (steps_dslice Rgtb Rgt) in Hc
      by (lia || apply Rltb_true || apply Rgtb_true).
    rewrite (steps_dslice Rltb Rlt) by (lia || apply Rltb_true).
    done.
  - intros (inc & -> & Hg & Hc & Hinc).
    rewrite (steps_dslice Rltb Rlt), (steps_dslice Rgtb Rgt)
      by (lia || apply Rltb_true || apply Rgtb_true).
    split; [done|]. split; [done|]. f_equal.
    apply eq_true_iff_eq.
    rewrite (steps_dslice Rltb Rlt) by (lia || apply Rltb_true).
    tauto.
Qed.

Lemma diffs_at d j :
  d ≤ i → j < d →
  at_ ((λ j, (at_ (slice data (i - d) (i + 1)) (j + 1)
              - at_ (slice data (i - d) (i + 1)) j)%R) <$> range 0 d) j
  = diff x (i - d + j).
Proof.
  intros Hd Hj. unfold range. rewrite Nat.sub_0_r, at_fmap_seq by done.
  rewrite dslice_seq, !at_fmap_seq by lia. unfold diff.
  by replace (i - d + (0 + j + 1)) with (i - d + j + 1) by lia.
Qed.

Lemma alternating_iff :
  13 ≤ i →
  forallb
    (λ j, Rltb
       (at_ ((λ j, (at_ (slice data (i - 13) (i + 1)) (j + 1)
                    - at_ (slice data (i - 13) (i + 1)) j)%R)
             <$> range 0 13) j
        * at_ ((λ j, (at_ (slice data (i - 13) (i + 1)) (j + 1)
                      - at_ (slice data (i - 13) (i + 1)) j)%R)
               <$> range 0 13) (j + 1)) 0)
    (range 0 12) = true ↔
  ∀ j, i - 13 ≤ j < i - 1 → opposite_sign (diff x j) (diff x (j + 1)).
Proof.
  intros Hg. change (range 0 12) with (seq 0 12).
  rewrite forallb_seq. split.
  - intros H j Hj. specialize (H (j - (i - 13))).
    rewrite !diffs_at, Rltb_true, opposite_sign_mult in H by lia.
    replace (i - 13 + (j - (i - 13) + 1)) with (j + 1) in H by lia.
    replace (i - 13 + (j - (i - 13))) with j in H by lia.
    apply H. lia.
  - intros H j Hj. rewrite !diffs_at, Rltb_true, opposite_sign_mult by lia.
    replace (i - 13 + (j + 1)) with (i - 13 + j + 1) by lia.
    apply H. lia.
Qed.

Lemma nonzero_iff :
  13 ≤ i →
  forallb (λ j, Rneqb (at_ (slice data (i - 13) (i + 1)) (j + 1)
                       - at_ (slice data (i - 13) (i + 1)) j) 0)
          (range 0 13) = true ↔
  ∀ j, i - 13 ≤ j < i → diff x j ≠ 0%R.
Proof.
  intros Hg.
  apply (steps_dslice (λ a b, Rneqb (b - a) 0) (λ a b, b - a ≠ 0)%R 13);
    [|done].
  intros a b. apply Rneqb_true.
Qed.

Lemma rule7_msgs m :
  m ∈ messages (rule7 data i st0) ↔
  m = Rule7Msg (i - 13) i ∧ 13 ≤ i ∧ trigger7 x i.
Proof.
  unfold rule7. cbv zeta.
  rewrite !if_msgs, fire_msgs, Nat.leb_le, forallb_fmap.
  unfold trigger7. split.
  - intros (Hg & Hc1 & Hc2 & ->).
    rewrite nonzero_iff in Hc1 by done.
    rewrite alternating_iff in Hc2 by done. done.
  - intros (-> & Hg & Hc1 & Hc2).
    rewrite nonzero_iff, alternating_iff by done. done.
Qed.
End Blocks.

(** ** The messages of one iteration and of the whole run *)

Ltac solve_local :=
  repeat first
    [ apply local_rule1 | apply local_rule2 | apply local_rule3
    | apply local_rule4 | apply local_rule5 | apply local_rule6
    | apply local_rule7 | apply local_rule8
    | match goal with
      | |- local (λ st, ?g (@?f st)) => apply (local_compose f g)
      end ].

(** The messages of an iteration are those of its eight blocks, in rule
    order, each block seeing the same z-scores. *)
Lemma fired_app data zs i z :
  let st0 := State zs ∅ [] in
  fired data zs i z
  = messages (rule1 i z st0) ++ messages (rule2 i st0)
    ++ messages (rule3 i st0) ++ messages (rule4 i st0)
    ++ messages (rule5 data i st0) ++ messages (rule6 i st0)
    ++ messages (rule7 data i st0) ++ messages (rule8 i st0).
Proof.
  intros st0. unfold fired, rules. change (State zs ∅ []) with (clear st0).
  rewrite (local_messages
    (λ st, rule7 data i (rule6 i (rule5 data i (rule4 i (rule3 i (rule2 i
      (rule1 i z st))))))) (rule8 i)) by solve_local.
  rewrite (local_messages
    (λ st, rule6 i (rule5 data i (rule4 i (rule3 i (rule2 i
      (rule1 i z st)))))) (rule7 data i)) by solve_local.
  rewrite (local_messages
    (λ st, rule5 data i (rule4 i (rule3 i (rule2 i (rule1 i z st)))))
    (rule6 i)) by solve_local.
  rewrite (local_messages
    (λ st, rule4 i (rule3 i (rule2 i (rule1 i z st)))) (rule5 data i))
    by solve_local.
  rewrite (local_messages (λ st, rule3 i (rule2 i (rule1 i z st))) (rule4 i))
    by solve_local.
  rewrite (local_messages (λ st, rule2 i (rule1 i z st)) (rule3 i))
    by solve_local.
  rewrite (local_messages (rule1 i z) (rule2 i)) by solve_local.
  change (clear st0) with st0. by rewrite <- !app_assoc.
Qed.

Lemma fired_emits data mean std i m :
  i < length data →
  m ∈ fired data (zscore mean std <$> take (S i) data) i
        (zscore mean std (at_ data i)) ↔
  emits (at_ data) (λ j, zscore mean std (at_ data j)) i m.
Proof.
  intros Hi. rewrite fired_app. cbv zeta. rewrite !elem_of_app.
  rewrite (rule1_msgs data mean std i), (rule2_msgs data mean std i Hi),
    (rule3_msgs data mean std i Hi), (rule4_msgs data mean std i Hi),
    (rule5_msgs data mean std i Hi), (rule6_msgs data mean std i Hi),
    (rule7_msgs data mean std i Hi), (rule8_msgs data mean std i Hi).
  split.
  - intros [H|[H|[H|[H|[(inc' & H)|[H|[H|H]]]]]]];
      destruct H as (-> & H); simpl; tauto.
  - destruct m as [i' v|lo hi|lo hi|lo hi|inc lo hi|lo hi|lo hi|lo hi]; simpl.
    + intros (-> & -> & H). by left.
    + intros (-> & -> & H). right; left. done.
    + intros (-> & -> & H). do 2 right; left. done.
    + intros (-> & -> & H). do 3 right; left. done.
    + intros (-> & -> & H). do 4 right; left. exists inc. done.
    + intros (-> & -> & H). do 5 right; left. done.
    + intros (-> & -> & H). do 6 right; left. done.
    + intros (-> & -> & H). do 7 right. done.
Qed.

(** ** The successful run *)

Lemma series_std_Some l :
  2 ≤ length l →
  series_std 1 l = Some (sqrt (sum_sq_dev l / INR (length l - 1))).
Proof.
  intros Hl. unfold series_std.
  destruct (Nat.leb_spec (length l) 1); [lia|done].
Qed.

Lemma run_inv data a :
  controlSensitizingGraph data = Success a →
  2 ≤ length data ∧ res_n a = length data ∧
  res_mean a = series_mean data ∧
  series_std 1 data = Some (res_std a) ∧ res_std a ≠ 0%R ∧
  res_messages a = emitted data (res_mean a) (res_std a) 0 data [] ∧
  res_problem_points a = merge_sort (≤) (elements (spans (res_messages a))).
Proof.
  unfold controlSensitizingGraph.
  destruct (Nat.ltb_spec (length data) 2) as [|Hlen]; [done|].
  destruct (series_std 1 data) as [std|]; [|done].
  destruct (Reqb std 0) eqn:Hstd; [done|].
  rewrite scan_eq. intros [= <-]. simpl.
  rewrite length_fmap. repeat split; try done.
  intros ->. apply not_true_iff_false in Hstd. apply Hstd.
  by apply Reqb_true.
Qed.

Lemma run_success data :
  2 ≤ length data → series_std 1 data ≠ Some 0%R →
  ∃ a, controlSensitizingGraph data = Success a.
Proof.
  intros Hlen Hstd. unfold controlSensitizingGraph.
  destruct (Nat.ltb_spec (length data) 2); [lia|].
  rewrite series_std_Some in * by done.
  destruct (Reqb _ 0) eqn:E; [|eauto].
  apply Reqb_true in E. rewrite E in Hstd. done.
Qed.

Lemma elem_of_messages data a m :
  controlSensitizingGraph data = Success a →
  m ∈ res_messages a ↔
  ∃ i, i < length data ∧ emits (at_ data) (z_of a data) i m.
Proof.
  intros (_ & _ & _ & _ & _ & -> & _)%run_inv.
  rewrite elem_of_emitted. split.
  - intros (i & x & Hx & H). exists i.
    pose proof (lookup_lt_Some _ _ _ Hx) as Hi. split; [done|].
    apply fired_emits; [done|]. simpl in H.
    by rewrite (at_lookup _ _ _ Hx).
  - intros (i & Hi & H). exists i, (at_ data i).
    split; [by apply lookup_at|]. simpl. by apply fired_emits.
Qed.

Lemma emits_shape x z i m :
  emits x z i m →
  msg_hi m = i ∧ window_size (msg_rule m) - 1 ≤ i ∧
  msg_lo m = i - (window_size (msg_rule m) - 1) ∧
  trigger x z (msg_rule m) i.
Proof.
  destruct m; simpl; intros H; decompose [and] H; subst;
    (split; [done|split; [lia|split; [lia|done]]]).
Qed.

Lemma fires_at_iff data a r i :
  controlSensitizingGraph data = Success a →
  fires_at a r i ↔
  i < length data ∧ window_size r - 1 ≤ i ∧
  trigger (at_ data) (z_of a data) r i.
Proof.
  intros Hrun. unfold fires_at. split.
  - intros (m & Hm & <- & <-).
    apply (elem_of_messages _ _ _ Hrun) in Hm as (i & Hi & He).
    apply emits_shape in He as (-> & ? & ? & ?). done.
  - intros (Hi & Hw & Ht).
    assert (∃ m, emits (at_ data) (z_of a data) i m ∧ msg_rule m = r)
      as (m & He & Hr).
    { destruct r as [|[|[|[|[|[|[|[|[|r]]]]]]]]]; simpl in Hw, Ht; try done.
      - exists (Rule1Msg i (z_of a data i)). done.
      - exists (Rule2Msg (i - 2) i). simpl. repeat split; done || lia.
      - exists (Rule3Msg (i - 4) i). simpl. repeat split; done || lia.
      - exists (Rule4Msg (i - 7) i). simpl. repeat split; done || lia.
      - destruct Ht as [Hinc|Hdec].
        + exists (Rule5Msg true (i - 5) i). simpl.
          repeat split; try (done || lia). by left.
        + exists (Rule5Msg false (i - 5) i). simpl.
          repeat split; try (done || lia); [by right|].
          intros Hinc. specialize (Hinc (i - 1)). specialize (Hdec (i - 1)).
          assert (i - 5 ≤ i - 1 < i) as Hj by lia.
          specialize (Hinc Hj). specialize (Hdec Hj). lra.
      - exists (Rule6Msg (i - 14) i). simpl. repeat split; done || lia.
      - exists (Rule7Msg (i - 13) i). simpl.
        destruct Ht. repeat split; done || lia.
      - exists (Rule8Msg (i - 7) i). simpl.
        destruct Ht as (? & ? & ?). repeat split; done || lia. }
    exists m. split; [|split; [done|]].
    + apply (elem_of_messages _ _ _ Hrun). eauto.
    + by apply emits_shape in He as (-> & _).
Qed.

(** Every reported message ends inside the column and spans exactly the
    trailing window of its rule. *)
Lemma message_span data a m :
  controlSensitizingGraph data = Success a →
  m ∈ res_messages a →
  msg_hi m < length data ∧
  window_size (msg_rule m) - 1 ≤ msg_hi m ∧
  msg_lo m = msg_hi m - (window_size (msg_rule m) - 1).
Proof.
  intros Hrun Hm.
  apply (elem_of_messages _ _ _ Hrun) in Hm as (i & Hi & He).
  apply emits_shape in He as (-> & ? & ? & ?). done.
Qed.

Lemma elem_of_problem_points data a k :
  controlSensitizingGraph data = Success a →
  k ∈ res_problem_points a ↔
  ∃ m, m ∈ res_messages a ∧ msg_lo m ≤ k ≤ msg_hi m.
Proof.
  intros Hrun. pose proof (run_inv _ _ Hrun) as (_&_&_&_&_&_& ->).
  rewrite merge_sort_Permutation, elem_of_elements. apply elem_of_spans.
Qed.

Lemma StronglySorted_le_lt (l : list nat) :
  StronglySorted le l → NoDup l → StronglySorted lt l.
Proof.
  induction 1 as [|k l Hl IH Hk]; intros Hnd; constructor.
  - apply IH. by apply NoDup_cons in Hnd as [_ ?].
  - apply NoDup_cons in Hnd as [Hk' _].
    rewrite Forall_forall in Hk |- *. intros j Hj.
    specialize (Hk j Hj). assert (j ≠ k) by (by intros ->). lia.
Qed.

Lemma problem_points_sorted data a :
  controlSensitizingGraph data = Success a →
  StronglySorted lt (res_problem_points a).
Proof.
  intros (_&_&_&_&_&_& ->)%run_inv. apply StronglySorted_le_lt.
  - apply (StronglySorted_merge_sort le).
  - rewrite merge_sort_Permutation. apply NoDup_elements.
Qed.

(** ** The sample standard deviation vanishes exactly on constant columns *)

Lemma all_equal_const c l : Forall (λ v, v = c) l → all_equal l.
Proof.
  rewrite Forall_forall. intros H x y Hx Hy.
  by rewrite (H x Hx), (H y Hy).
Qed.

Lemma sum_R_nonneg l : Forall (λ v, 0 <= v)%R l → (0 <= sum_R l)%R.
Proof. induction 1; simpl; lra. Qed.

Lemma sum_R_zero l :
  Forall (λ v, 0 <= v)%R l → sum_R l = 0%R → Forall (λ v, v = 0%R) l.
Proof.
  induction 1 as [|v l Hv Hl IH]; simpl; intros Hsum; constructor.
  - pose proof (sum_R_nonneg l Hl). lra.
  - apply IH. pose proof (sum_R_nonneg l Hl). lra.
Qed.

Lemma sum_R_const c l : (∀ v, v ∈ l → v = c) → sum_R l = (INR (length l) * c)%R.
Proof.
  induction l as [|v l IH]; intros H.
  - simpl. lra.
  - cbn [sum_R foldr length]. fold (sum_R l). rewrite S_INR, IH.
    + rewrite (H v) by apply list_elem_of_here. lra.
    + intros w Hw. apply H. by apply list_elem_of_further.
Qed.

Lemma series_mean_const c l :
  l ≠ [] → (∀ v, v ∈ l → v = c) → series_mean l = c.
Proof.
  intros Hne H. unfold series_mean. rewrite (sum_R_const c) by done.
  assert (0 < INR (length l))%R.
  { apply lt_0_INR. destruct l; [done|simpl; lia]. }
  field. lra.
Qed.

Lemma squares_nonneg (m : R) (l : list R) :
  Forall (λ v, 0 <= v)%R ((λ v, (v - m) * (v - m))%R <$> l).
Proof.
  apply Forall_fmap, Forall_forall. intros v _.
  change (0 <= (v - m) * (v - m))%R. apply Rle_0_sqr.
Qed.

Lemma sum_sq_dev_nonneg l : (0 <= sum_sq_dev l)%R.
Proof. apply sum_R_nonneg, squares_nonneg. Qed.

Lemma sum_sq_dev_zero l :
  sum_sq_dev l = 0%R ↔ ∀ v, v ∈ l → v = series_mean l.
Proof.
  unfold sum_sq_dev. cbv zeta. split.
  - intros H%sum_R_zero; [|apply squares_nonneg].
    rewrite Forall_fmap, Forall_forall in H. intros v Hv.
    specialize (H v Hv).
    change ((v - series_mean l) * (v - series_mean l) = 0)%R in H.
    apply Rmult_integral in H. lra.
  - intros H. rewrite (sum_R_const 0); [lra|].
    intros w (v & -> & Hv)%list_elem_of_fmap. rewrite (H v Hv). lra.
Qed.

Lemma series_std_zero l :
  2 ≤ length l → series_std 1 l = Some 0%R ↔ all_equal l.
Proof.
  intros Hlen. rewrite series_std_Some by done.
  assert (0 < INR (length l - 1))%R as Hn by (apply lt_0_INR; lia).
  pose proof (sum_sq_dev_nonneg l) as Hss.
  assert (0 <= sum_sq_dev l / INR (length l - 1))%R as Hq.
  { apply Rmult_le_pos; [done|]. left. by apply Rinv_0_lt_compat. }
  split.
  - intros [= H]. apply sqrt_eq_0 in H; [|done].
    assert (sum_sq_dev l = 0%R) as H0.
    { replace (sum_sq_dev l)
        with (sum_sq_dev l / INR (length l - 1) * INR (length l - 1))%R
        by (field; lra).
      rewrite H. lra. }
    intros x y Hx Hy. rewrite sum_sq_dev_zero in H0.
    by rewrite (H0 x Hx), (H0 y Hy).
  - intros Heq. f_equal.
    assert (sum_sq_dev l = 0%R) as ->.
    { apply sum_sq_dev_zero. intros v Hv. symmetry.
      apply series_mean_const; [intros ->; simpl in Hlen; lia|].
      intros w Hw. by apply Heq. }
    unfold Rdiv. rewrite Rmult_0_l. apply sqrt_0.
Qed.

Lemma series_std_None l : 2 ≤ length l → series_std 1 l ≠ None.
Proof. intros Hlen. by rewrite series_std_Some. Qed.

(** ** Valid inputs *)

Lemma valid_success data :
  valid data ↔ ∃ a, controlSensitizingGraph data = Success a.
Proof.
  split.
  - intros (Hlen & s & Hs & Hpos). apply run_success; [done|].
    rewrite Hs. intros [= ->]. lra.
  - intros (a & Ha). apply run_inv in Ha as (Hlen & _ & _ & Hs & Hne & _).
    split; [done|]. exists (res_std a). split; [done|].
    rewrite series_std_Some in Hs by done. injection Hs as Hs.
    pose proof (sqrt_pos (sum_sq_dev data / INR (length data - 1))).
    rewrite Hs in H. lra.
Qed.

Lemma success_of_distinct data x y :
  2 ≤ length data → x ∈ data → y ∈ data → x ≠ y →
  ∃ a, controlSensitizingGraph data = Success a.
Proof.
  intros Hlen Hx Hy Hxy. apply run_success; [done|].
  rewrite series_std_zero by done. intros Heq. by apply Hxy, Heq.
Qed.

(** ** The properties of the analysis *)

(** C8. A column with fewer than two values is rejected with
    [InsufficientData]: the result is a failure ([ok] is false), so it
    carries neither messages nor flagged indices, and is never a success. *)
Theorem insufficient_data (data : list R) :
  length data < 2 →
  controlSensitizingGraph data = Failure InsufficientData ∧
  ok (controlSensitizingGraph data) = false ∧
  ∀ a, controlSensitizingGraph data ≠ Success a.
Proof.
  intros Hlen. unfold controlSensitizingGraph.
  destruct (Nat.ltb_spec (length data) 2); [|lia]. done.
Qed.

Lemma insufficient_data_witness :
  length [5%R] < 2 ∧
  controlSensitizingGraph [5%R] = Failure InsufficientData ∧
  ok (controlSensitizingGraph [5%R]) = false ∧
  ∀ a, controlSensitizingGraph [5%R] ≠ Success a.
Proof.
  split; [simpl; lia|]. apply (insufficient_data [5%R]). simpl. lia.
Defined.

(** C9, as stated, fails on the code: for two values of size 2^665 the mean
    is 0 and the squared deviations overflow, so the sample standard
    deviation is infinite; that is not a finite number, yet the analysis
    succeeds and runs the rules. *)
Lemma degenerate_variance_counterexample :
  Double.mean2 (Double.at_ Double.huge2 0) (Double.at_ Double.huge2 1)
  = PrimFloat.zero ∧
  Double.std2 (Double.at_ Double.huge2 0) (Double.at_ Double.huge2 1)
  = PrimFloat.infinity ∧
  PrimFloat.is_finite PrimFloat.infinity = false ∧
  Double.controlSensitizingGraph Double.huge2 PrimFloat.zero PrimFloat.infinity
  = Double.Success
      (Double.Analysis 2 PrimFloat.zero PrimFloat.infinity [] []).
Proof. repeat split; vm_compute; reflexivity. Qed.

(** C9, amended.  For a column of at least two values the analysis fails
    with [DegenerateVariance] exactly when the sample standard deviation it
    was given compares equal to 0 or is NaN.  Such a run is a failure and
    evaluates no rule; any other deviation, an infinite one included, gives
    a success that reports the mean and the deviation as given. *)
Theorem degenerate_variance (data : list PrimFloat.float)
    (mean std : PrimFloat.float) :
  2 ≤ length data →
  (Double.controlSensitizingGraph data mean std
   = Double.Failure DegenerateVariance ↔
   PrimFloat.eqb std PrimFloat.zero = true ∨ PrimFloat.is_nan std = true) ∧
  (Double.controlSensitizingGraph data mean std
   = Double.Failure DegenerateVariance →
   Double.ok (Double.controlSensitizingGraph data mean std) = false ∧
   ∀ a, Double.controlSensitizingGraph data mean std ≠ Double.Success a) ∧
  (PrimFloat.eqb std PrimFloat.zero = false → PrimFloat.is_nan std = false →
   ∃ a, Double.controlSensitizingGraph data mean std = Double.Success a ∧
     Double.res_mean a = mean ∧ Double.res_std a = std).
Proof.
  intros Hlen. unfold Double.controlSensitizingGraph, PrimFloat.zero.
  destruct (Nat.ltb_spec (length data) 2); [lia|]. cbv zeta.
  destruct (PrimFloat.eqb std _) eqn:E0; simpl.
  { split; [split; [by left|done]|].
    split; [by intros _|]. intros H0. discriminate H0. }
  destruct (PrimFloat.is_nan std) eqn:En; simpl.
  { split; [split; [by right|done]|].
    split; [by intros _|]. intros _ H0. discriminate H0. }
  split; [|split].
  - split; [intros H0; discriminate H0|]. intros [H0|H0]; discriminate H0.
  - intros H0. discriminate H0.
  - intros _ _. eexists. split; [reflexivity|]. done.
Qed.

Lemma degenerate_variance_witness :
  2 ≤ length Double.sevens ∧
  Double.controlSensitizingGraph Double.sevens
    (Double.at_ Double.sevens 0) PrimFloat.zero
  = Double.Failure DegenerateVariance.
Proof.
  assert (2 ≤ length Double.sevens) as Hlen by (simpl; lia).
  split; [exact Hlen|].
  apply (degenerate_variance Double.sevens _ PrimFloat.zero Hlen).
  left. reflexivity.
Defined.

(** ** Statistics of the sample columns *)





Lemma monotone6_valid : valid monotone6.
Proof.
  apply valid_success, (success_of_distinct _ 1%R 2%R);
    [simpl; lia|repeat constructor..|lra].
Qed.

Lemma span_window data a m k :
  controlSensitizingGraph data = Success a → m ∈ res_messages a →
  msg_lo m ≤ k ≤ msg_hi m ↔
  in_window (window_size (msg_rule m)) (msg_hi m) k.
Proof.
  intros Hrun Hm. destruct (message_span _ _ _ Hrun Hm) as (_ & Hw & ->).
  unfold in_window.
  assert (1 ≤ window_size (msg_rule m)) by (destruct m; simpl; lia). lia.
Qed.

(** C1. For a valid input the run succeeds, and the flagged indices it
    reports all lie in [0, n-1], are exactly the indices of the trailing
    windows of the rules that fired, and come as a strictly ascending list,
    that is sorted and without duplicates. *)
Theorem flagged_index_set (data : list R) :
  valid data →
  ∃ a, controlSensitizingGraph data = Success a ∧
    res_n a = length data ∧
    (∀ k, k ∈ res_problem_points a → k ≤ res_n a - 1) ∧
    (∀ k, k ∈ res_problem_points a ↔
          ∃ r i, fires_at a r i ∧ in_window (window_size r) i k) ∧
    StronglySorted lt (res_problem_points a).
Proof.
  intros (a & Hrun)%valid_success. exists a.
  pose proof (run_inv _ _ Hrun) as (Hlen & Hn & _).
  assert (∀ k, k ∈ res_problem_points a ↔
               ∃ r i, fires_at a r i ∧ in_window (window_size r) i k) as Hset.
  { intros k. rewrite (elem_of_problem_points _ _ _ Hrun). split.
    - intros (m & Hm & Hk). exists (msg_rule m), (msg_hi m). split.
      + by exists m.
      + by apply (span_window _ _ _ _ Hrun Hm).
    - intros (r & i & (m & Hm & <- & <-) & Hk). exists m. split; [done|].
      by apply (span_window _ _ _ _ Hrun Hm). }
  repeat split; try done.
  - intros k (r & i & Hf & Hk)%Hset.
    apply (fires_at_iff _ _ _ _ Hrun) in Hf as (Hi & _).
    unfold in_window in Hk. lia.
  - apply Hset.
  - apply Hset.
  - by apply (problem_points_sorted data).
Qed.

Lemma flagged_index_set_witness :
  valid monotone6 ∧
  ∃ a, controlSensitizingGraph monotone6 = Success a ∧
    res_n a = length monotone6 ∧
    (∀ k, k ∈ res_problem_points a → k ≤ res_n a - 1) ∧
    (∀ k, k ∈ res_problem_points a ↔
          ∃ r i, fires_at a r i ∧ in_window (window_size r) i k) ∧
    StronglySorted lt (res_problem_points a).
Proof.
  split; [apply monotone6_valid|].
  apply (flagged_index_set monotone6), monotone6_valid.
Defined.

(** ** Messages come in firing order, one for each firing *)

Ltac one_block :=
  cbv zeta;
  repeat match goal with
  | |- context [if ?c then _ else _] => destruct c
  end;
  simpl; first [by left | right; eexists; by repeat split].

Lemma rule1_at_most_one i z zs :
  at_most_one 1 i (messages (rule1 i z (State zs ∅ []))).
Proof. unfold rule1. one_block. Qed.

Lemma rule2_at_most_one i zs :
  at_most_one 2 i (messages (rule2 i (State zs ∅ []))).
Proof. unfold rule2. one_block. Qed.

Lemma rule3_at_most_one i zs :
  at_most_one 3 i (messages (rule3 i (State zs ∅ []))).
Proof. unfold rule3. one_block. Qed.

Lemma rule4_at_most_one i zs :
  at_most_one 4 i (messages (rule4 i (State zs ∅ []))).
Proof. unfold rule4. one_block. Qed.

Lemma rule5_at_most_one data i zs :
  at_most_one 5 i (messages (rule5 data i (State zs ∅ []))).
Proof. unfold rule5. one_block. Qed.

Lemma rule6_at_most_one i zs :
  at_most_one 6 i (messages (rule6 i (State zs ∅ []))).
Proof. unfold rule6. one_block. Qed.

Lemma rule7_at_most_one data i zs :
  at_most_one 7 i (messages (rule7 data i (State zs ∅ []))).
Proof. unfold rule7. one_block. Qed.

Lemma rule8_at_most_one i zs :
  at_most_one 8 i (messages (rule8 i (State zs ∅ []))).
Proof. unfold rule8. one_block. Qed.

Lemma block_before r r' i ms rest :
  at_most_one r i ms → r' < r →
  StronglySorted before rest →
  (∀ m, m ∈ rest → msg_hi m = i ∧ r < msg_rule m) →
  StronglySorted before (ms ++ rest) ∧
  ∀ m, m ∈ ms ++ rest → msg_hi m = i ∧ r' < msg_rule m.
Proof.
  intros [->|(m0 & -> & Hr & Hhi)] Hlt Hsorted Hrest; simpl.
  - split; [done|]. intros m Hm. destruct (Hrest m Hm). split; [done|lia].
  - split.
    + constructor; [done|]. apply Forall_forall. intros m Hm.
      destruct (Hrest m Hm). right. split; [congruence|lia].
    + intros m [->|Hm]%elem_of_cons; [split; [done|lia]|].
      destruct (Hrest m Hm). split; [done|lia].
Qed.

Lemma fired_sorted data zs i z :
  StronglySorted before (fired data zs i z) ∧
  ∀ m, m ∈ fired data zs i z → msg_hi m = i.
Proof.
  rewrite fired_app. cbv zeta.
  rewrite <- (app_nil_r (messages (rule8 i _))).
  assert (StronglySorted before [] ∧
          ∀ m : message, m ∈ [] → msg_hi m = i ∧ 8 < msg_rule m) as [H0 H0'].
  { split; [constructor|]. by intros m ?%elem_of_nil. }
  destruct (block_before 8 7 i _ _ (rule8_at_most_one i zs)
              ltac:(lia) H0 H0') as [H8 H8'].
  destruct (block_before 7 6 i _ _ (rule7_at_most_one data i zs)
              ltac:(lia) H8 H8') as [H7 H7'].
  destruct (block_before 6 5 i _ _ (rule6_at_most_one i zs)
              ltac:(lia) H7 H7') as [H6 H6'].
  destruct (block_before 5 4 i _ _ (rule5_at_most_one data i zs)
              ltac:(lia) H6 H6') as [H5 H5'].
  destruct (block_before 4 3 i _ _ (rule4_at_most_one i zs)
              ltac:(lia) H5 H5') as [H4 H4'].
  destruct (block_before 3 2 i _ _ (rule3_at_most_one i zs)
              ltac:(lia) H4 H4') as [H3 H3'].
  destruct (block_before 2 1 i _ _ (rule2_at_most_one i zs)
              ltac:(lia) H3 H3') as [H2 H2'].
  destruct (block_before 1 0 i _ _ (rule1_at_most_one i z zs)
              ltac:(lia) H2 H2') as [H1 H1'].
  split; [done|]. intros m Hm. by destruct (H1' m Hm).
Qed.

Lemma emitted_sorted data mean std rest : ∀ i zs,
  StronglySorted before (emitted data mean std i rest zs) ∧
  ∀ m, m ∈ emitted data mean std i rest zs → i ≤ msg_hi m.
Proof.
  induction rest as [|x rest IH]; intros i zs; simpl.
  - split; [constructor|]. by intros m ?%elem_of_nil.
  - destruct (IH (S i) (zs ++ [zscore mean std x])) as [Hs Hge].
    destruct (fired_sorted data (zs ++ [zscore mean std x]) i
                (zscore mean std x)) as [Hf Hhi].
    split.
    + apply StronglySorted_app_2; [|done..].
      intros m1 m2 H1 H2. left.
      rewrite (Hhi m1 H1). specialize (Hge m2 H2). lia.
    + intros m [H|H]%elem_of_app.
      * by rewrite (Hhi m H).
      * specialize (Hge m H). lia.
Qed.

(** Messages are reported index-major, rule-minor. *)
Lemma messages_sorted data a :
  controlSensitizingGraph data = Success a →
  StronglySorted before (res_messages a).
Proof.
  intros (_ & _ & _ & _ & _ & -> & _)%run_inv. apply emitted_sorted.
Qed.

Lemma StronglySorted_filter {A} (Rel : relation A) (P : A → Prop)
    `{∀ x, Decision (P x)} (l : list A) :
  StronglySorted Rel l → StronglySorted Rel (filter P l).
Proof.
  induction 1 as [|x l Hl IH Hx]; [constructor|].
  rewrite filter_cons. destruct (decide (P x)); [|done].
  constructor; [done|]. rewrite Forall_forall in Hx |- *.
  intros y [_ Hy]%list_elem_of_filter. by apply Hx.
Qed.

(** A rule that fires at an index has exactly one message for it. *)
Lemma fires_at_once data a r i :
  controlSensitizingGraph data = Success a →
  fires_at a r i →
  ∃ m, filter (λ m, msg_rule m = r ∧ msg_hi m = i) (res_messages a) = [m].
Proof.
  intros Hrun (m & Hm & Hr & Hhi).
  pose proof (StronglySorted_filter before
    (λ m, msg_rule m = r ∧ msg_hi m = i) _ (messages_sorted _ _ Hrun)) as Hs.
  assert (m ∈ filter (λ m, msg_rule m = r ∧ msg_hi m = i) (res_messages a))
    as Hin by (by apply list_elem_of_filter).
  destruct (filter _ (res_messages a)) as [|m1 [|m2 l]] eqn:E.
  - by apply elem_of_nil in Hin.
  - by exists m1.
  - exfalso.
    assert (m1 ∈ filter (λ m, msg_rule m = r ∧ msg_hi m = i) (res_messages a))
      as [[? ?] _]%list_elem_of_filter by (rewrite E; constructor).
    assert (m2 ∈ filter (λ m, msg_rule m = r ∧ msg_hi m = i) (res_messages a))
      as [[? ?] _]%list_elem_of_filter by (rewrite E; do 2 constructor).
    apply StronglySorted_cons in Hs as [Hall _].
    apply Forall_cons in Hall as [Hb _]. unfold before in Hb. lia.
Qed.

(** C10. On a successful run the message list is empty exactly when the
    flagged-index list is empty: a rule that fires at an index has exactly
    one message for it, every message has a non-empty span, all of which is
    flagged, and every flagged index lies in the span of some message. *)
Theorem messages_empty_iff_flagged_empty (data : list R) (a : analysis) :
  controlSensitizingGraph data = Success a →
  (res_messages a = [] ↔ res_problem_points a = []) ∧
  (∀ r i, fires_at a r i →
        ∃ m, filter (λ m, msg_rule m = r ∧ msg_hi m = i) (res_messages a)
             = [m]) ∧
  (∀ m, m ∈ res_messages a →
        msg_lo m ≤ msg_hi m ∧
        ∀ k, msg_lo m ≤ k ≤ msg_hi m → k ∈ res_problem_points a) ∧
  (∀ k, k ∈ res_problem_points a →
        ∃ m, m ∈ res_messages a ∧ msg_lo m ≤ k ≤ msg_hi m).
Proof.
  intros Hrun.
  assert (∀ m, m ∈ res_messages a →
        msg_lo m ≤ msg_hi m ∧
        ∀ k, msg_lo m ≤ k ≤ msg_hi m → k ∈ res_problem_points a) as Hspan.
  { intros m Hm. split.
    - destruct (message_span _ _ _ Hrun Hm) as (_ & _ & ->). lia.
    - intros k Hk. apply (elem_of_problem_points _ _ _ Hrun). eauto. }
  split; [|split; [|split; [done|]]].
  - split.
    + intros Hnil. destruct (res_problem_points a) as [|k l] eqn:E; [done|].
      assert (k ∈ res_problem_points a) as Hk by (rewrite E; constructor).
      apply (elem_of_problem_points _ _ _ Hrun) in Hk as (m & Hm & _).
      rewrite Hnil in Hm. by apply elem_of_nil in Hm.
    + intros Hnil. destruct (res_messages a) as [|m l] eqn:E; [done|].
      destruct (Hspan m) as [Hle Hin]; [constructor|].
      specialize (Hin (msg_hi m) (conj Hle (Nat.le_refl _))).
      rewrite Hnil in Hin. by apply elem_of_nil in Hin.
  - intros r i Hf. by apply (fires_at_once data).
  - intros k Hk. by apply (elem_of_problem_points _ _ _ Hrun).
Qed.

Lemma messages_empty_iff_flagged_empty_witness :
  ∃ a, controlSensitizingGraph monotone6 = Success a ∧
    (res_messages a = [] ↔ res_problem_points a = []).
Proof.
  destruct (proj1 (valid_success monotone6) monotone6_valid) as [a Ha].
  exists a. split; [exact Ha|].
  apply (messages_empty_iff_flagged_empty monotone6 a Ha).
Defined.

(** Mean and deviation reported by a successful run. *)
Lemma run_stats data a m s :
  controlSensitizingGraph data = Success a →
  series_mean data = m → series_std 1 data = Some s →
  res_mean a = m ∧ res_std a = s.
Proof.
  intros (_ & _ & Hm & Hs & _)%run_inv <- Hs'. split; [done|]. congruence.
Qed.





Lemma Sorted_seq a n : Sorted le (seq a n).
Proof.
  revert a. induction n as [|n IH]; intros a; simpl; constructor.
  - apply IH.
  - destruct n; simpl; constructor. lia.
Qed.

(** A message that spans the whole column makes every index flagged. *)
Lemma problem_points_full data a m :
  controlSensitizingGraph data = Success a →
  m ∈ res_messages a → msg_lo m = 0 → msg_hi m = length data - 1 →
  res_problem_points a = seq 0 (length data).
Proof.
  intros Hrun Hm Hlo Hhi.
  pose proof (run_inv _ _ Hrun) as (Hlen &_&_&_&_&_& Hpp).
  apply (Sorted_unique le).
  - rewrite Hpp. apply (Sorted_merge_sort le).
  - apply Sorted_seq.
  - apply NoDup_Permutation.
    + rewrite Hpp, merge_sort_Permutation. apply NoDup_elements.
    + apply NoDup_seq.
    + intros k. rewrite (elem_of_problem_points _ _ _ Hrun), elem_of_seq.
      split.
      * intros (m' & Hm' & Hk).
        destruct (message_span _ _ _ Hrun Hm') as (? & _). lia.
      * intros Hk. exists m. split; [done|]. lia.
Qed.

(** ** The column of eight ones, eight minus ones and a zero *)











Lemma monotone6_increasing : increasing (at_ monotone6) 5.
Proof.
  intros j Hj. unfold at_, monotone6.
  do 5 (destruct j as [|j]; [simpl; lra|]). lia.
Qed.

(** C5. On a successful run and for [i >= 5], rule 5 fires at [i] exactly
    when the six raw values [x[i-5..i]] strictly increase over all five
    steps or strictly decrease over all five steps.  On [1,2,3,4,5,6] it
    fires at index 5 with span [0 .. 5], and all six indices are flagged. *)
Theorem rule5_monotone_run :
  (∀ (data : list R) (a : analysis) (i : nat),
     controlSensitizingGraph data = Success a →
     5 ≤ i < length data →
     fires_at a 5 i ↔
     (∀ j, i - 5 ≤ j < i → (at_ data j < at_ data (j + 1))%R) ∨
     (∀ j, i - 5 ≤ j < i → (at_ data j > at_ data (j + 1))%R)) ∧
  ∃ a, controlSensitizingGraph monotone6 = Success a ∧
    fires_at a 5 5 ∧
    Rule5Msg true 0 5 ∈ res_messages a ∧
    (∀ m, m ∈ res_messages a → msg_rule m = 5 → m = Rule5Msg true 0 5) ∧
    res_problem_points a = [0; 1; 2; 3; 4; 5].
Proof.
  split.
  - intros data a i Hrun Hi. rewrite (fires_at_iff _ _ _ _ Hrun). simpl.
    unfold trigger5, increasing, decreasing. split; [tauto|].
    intros H. repeat split; done || lia.
  - destruct (proj1 (valid_success monotone6) monotone6_valid) as [a Hrun].
    exists a. split; [done|].
    assert (Rule5Msg true 0 5 ∈ res_messages a) as Hm.
    { apply (elem_of_messages _ _ _ Hrun). exists 5. split; [simpl; lia|].
      simpl. repeat split; try lia.
      - left. apply monotone6_increasing.
      - intros _. apply monotone6_increasing. }
    split; [by exists (Rule5Msg true 0 5)|]. split; [done|]. split.
    + intros m Hm' Hr.
      apply (elem_of_messages _ _ _ Hrun) in Hm' as (i & Hi & He).
      destruct m as [| | | |inc lo hi| | |]; try discriminate Hr.
      simpl in He, Hi. destruct He as (-> & -> & Hg & _ & Hinc).
      assert (i = 5) as -> by lia.
      assert (inc = true) as -> by apply Hinc, monotone6_increasing.
      done.
    + by apply (problem_points_full monotone6 a (Rule5Msg true 0 5)).
Qed.

Lemma rule5_monotone_run_witness :
  ∃ a, controlSensitizingGraph monotone6 = Success a ∧
    5 ≤ 5 < length monotone6 ∧
    (fires_at a 5 5 ↔
     (∀ j, 5 - 5 ≤ j < 5 →
           (at_ monotone6 j < at_ monotone6 (j + 1))%R) ∨
     (∀ j, 5 - 5 ≤ j < 5 →
           (at_ monotone6 j > at_ monotone6 (j + 1))%R)).
Proof.
  destruct (proj1 (valid_success monotone6) monotone6_valid) as [a Ha].
  exists a. assert (5 ≤ 5 < length monotone6) as Hi by (simpl; lia).
  split; [exact Ha|]. split; [exact Hi|].
  exact (proj1 rule5_monotone_run monotone6 a 5 Ha Hi).
Defined.

Lemma alternating14_success :
  ∃ a, controlSensitizingGraph alternating14 = Success a.
Proof.
  apply (success_of_distinct _ 5%R 4%R);
    [simpl; lia|repeat constructor..|lra].
Qed.

Lemma alternating14_trigger : trigger7 (at_ alternating14) 13.
Proof.
  split.
  - intros j Hj. unfold diff, at_, alternating14.
    do 13 (destruct j as [|j]; [simpl; lra|]). lia.
  - intros j Hj. unfold opposite_sign, diff, at_, alternating14.
    do 12 (destruct j as [|j];
           [simpl; first [left; split; lra|right; split; lra]|]).
    lia.
Qed.




(** ** Rule 7 on steps too small for their product *)

Ltac keeps_no_rule7 :=
  intros st Hst; unfold Double.no_rule7 in *; cbv zeta;
  repeat match goal with
  | |- context [if ?c then _ else _] => destruct c
  end;
  try exact Hst;
  simpl; apply Forall_app; (split; [exact Hst|]);
  repeat constructor; simpl; lia.

Lemma rule1_no_rule7 i z st :
  Double.no_rule7 st → Double.no_rule7 (Double.rule1 i z st).
Proof. revert st. unfold Double.rule1. keeps_no_rule7. Qed.

Lemma rule2_no_rule7 i st :
  Double.no_rule7 st → Double.no_rule7 (Double.rule2 i st).
Proof. revert st. unfold Double.rule2. keeps_no_rule7. Qed.

Lemma rule3_no_rule7 i st :
  Double.no_rule7 st → Double.no_rule7 (Double.rule3 i st).
Proof. revert st. unfold Double.rule3. keeps_no_rule7. Qed.

Lemma rule4_no_rule7 i st :
  Double.no_rule7 st → Double.no_rule7 (Double.rule4 i st).
Proof. revert st. unfold Double.rule4. keeps_no_rule7. Qed.

Lemma rule5_no_rule7 data i st :
  Double.no_rule7 st → Double.no_rule7 (Double.rule5 data i st).
Proof. revert st. unfold Double.rule5. keeps_no_rule7. Qed.

Lemma rule6_no_rule7 i st :
  Double.no_rule7 st → Double.no_rule7 (Double.rule6 i st).
Proof. revert st. unfold Double.rule6. keeps_no_rule7. Qed.

Lemma rule8_no_rule7 i st :
  Double.no_rule7 st → Double.no_rule7 (Double.rule8 i st).
Proof. revert st. unfold Double.rule8. keeps_no_rule7. Qed.

(** On [tiny15] the rule 7 block never changes the state. *)
Lemma rule7_tiny15 i st :
  i < 15 → Double.rule7 Double.tiny15 i st = st.
Proof.
  intros Hi. do 15 (destruct i as [|i]; [vm_compute; reflexivity|]). lia.
Qed.

Lemma step_tiny15 mean std i x st :
  i < 15 → Double.no_rule7 st →
  Double.no_rule7 (Double.step Double.tiny15 mean std i x st).
Proof.
  intros Hi Hst. unfold Double.step. cbv zeta.
  apply rule8_no_rule7. rewrite rule7_tiny15 by done.
  apply rule6_no_rule7, rule5_no_rule7, rule4_no_rule7, rule3_no_rule7,
    rule2_no_rule7, rule1_no_rule7.
  exact Hst.
Qed.

Lemma loop_tiny15 mean std rest : ∀ i st,
  i + length rest ≤ 15 → Double.no_rule7 st →
  Double.no_rule7 (Double.loop Double.tiny15 mean std i rest st).
Proof.
  induction rest as [|x rest IH]; intros i st Hlen Hst; simpl; [done|].
  simpl in Hlen. apply IH; [lia|]. apply step_tiny15; [lia|done].
Qed.

(** C6, the code on a failing input.  In the column [tiny15] the first
    fourteen values go up and down by 2^-565: the thirteen steps between
    them are non-zero and alternate in sign, but each product of adjacent
    steps underflows to zero and so is not [< 0].  The rule 7 block at index
    13 therefore leaves the state as it is, and whatever mean and deviation
    the run is given, it succeeds without any rule 7 message. *)
Theorem rule7_underflow :
  forallb (λ d, Double.neqb d PrimFloat.zero)
    (Double.steps (slice Double.tiny15 0 14)) = true ∧
  forallb (λ j, Double.opposite
                  (Double.at_ (Double.steps (slice Double.tiny15 0 14)) j)
                  (Double.at_ (Double.steps (slice Double.tiny15 0 14))
                     (j + 1)))
    (range 0 12) = true ∧
  forallb (λ j, PrimFloat.eqb
                  (PrimFloat.mul
                     (Double.at_ (Double.steps (slice Double.tiny15 0 14)) j)
                     (Double.at_ (Double.steps (slice Double.tiny15 0 14))
                        (j + 1)))
                  PrimFloat.zero)
    (range 0 12) = true ∧
  (∀ st, Double.rule7 Double.tiny15 13 st = st) ∧
  (∀ mean std,
     PrimFloat.eqb std PrimFloat.zero = false →
     PrimFloat.is_nan std = false →
     ∃ a, Double.controlSensitizingGraph Double.tiny15 mean std
          = Double.Success a ∧
       ∀ m, m ∈ Double.res_messages a → Double.msg_rule m ≠ 7).
Proof.
  split; [vm_compute; reflexivity|].
  split; [vm_compute; reflexivity|].
  split; [vm_compute; reflexivity|].
  split; [intros st; apply rule7_tiny15; lia|].
  intros mean std H0 Hn. unfold Double.controlSensitizingGraph.
  unfold PrimFloat.zero in H0.
  change (length Double.tiny15 <? 2) with false. cbv iota.
  rewrite H0, Hn. simpl orb. cbv iota zeta.
  eexists. split; [reflexivity|]. cbn [Double.res_messages].
  apply Forall_forall.
  apply (loop_tiny15 mean std Double.tiny15 0 Double.initial);
    [simpl; lia|constructor].
Qed.

Lemma rule7_underflow_witness :
  PrimFloat.eqb Double.tiny15_std PrimFloat.zero = false ∧
  PrimFloat.is_nan Double.tiny15_std = false ∧
  ∃ a, Double.controlSensitizingGraph Double.tiny15
         Double.tiny15_mean Double.tiny15_std = Double.Success a ∧
    ∀ m, m ∈ Double.res_messages a → Double.msg_rule m ≠ 7.
Proof.
  assert (PrimFloat.eqb Double.tiny15_std PrimFloat.zero = false) as H0
    by (vm_compute; reflexivity).
  assert (PrimFloat.is_nan Double.tiny15_std = false) as Hn
    by (vm_compute; reflexivity).
  split; [exact H0|]. split; [exact Hn|].
  exact (proj2 (proj2 (proj2 (proj2 rule7_underflow)))
           Double.tiny15_mean Double.tiny15_std H0 Hn).
Defined.

(** ** The column [0, 0, 0, 3] *)






(** * Further properties of the scan *)

(** ** The remaining z-score rules *)

Lemma fires_at_flags data a r i k :
  controlSensitizingGraph data = Success a →
  fires_at a r i → in_window (window_size r) i k →
  k ∈ res_problem_points a.
Proof.
  intros Hrun (m & Hm & <- & <-) Hk.
  apply (elem_of_problem_points _ _ _ Hrun). exists m. split; [done|].
  by apply (span_window _ _ _ _ Hrun Hm).
Qed.








(** ** Order of the messages *)

Lemma StronglySorted_lookup_lt {A} (Rel : relation A) (l : list A) :
  StronglySorted Rel l →
  ∀ p q x y, p < q → l !! p = Some x → l !! q = Some y → Rel x y.
Proof.
  induction 1 as [|h l Hl IH Hh]; intros p q x y Hpq Hp Hq.
  - by rewrite lookup_nil in Hp.
  - destruct q as [|q]; [lia|]. simpl in Hq. destruct p as [|p].
    + injection Hp as <-. by apply (Forall_lookup_1 _ _ _ _ Hh Hq).
    + simpl in Hp. apply (IH p q); [lia|done..].
Qed.

(** X4. The messages of a successful run come in firing order: a message
    that stands earlier in the list ends at a smaller index, or at the same
    index and then belongs to a rule with a smaller number.  In particular
    no message is reported twice. *)
Theorem messages_firing_order (data : list R) (a : analysis) :
  controlSensitizingGraph data = Success a →
  (∀ p q m1 m2, p < q →
     res_messages a !! p = Some m1 → res_messages a !! q = Some m2 →
     msg_hi m1 < msg_hi m2 ∨
     (msg_hi m1 = msg_hi m2 ∧ msg_rule m1 < msg_rule m2)) ∧
  NoDup (res_messages a).
Proof.
  intros Hrun. pose proof (messages_sorted _ _ Hrun) as Hs.
  assert (∀ p q m1 m2, p < q →
     res_messages a !! p = Some m1 → res_messages a !! q = Some m2 →
     before m1 m2) as Hord.
  { intros p q m1 m2. by apply StronglySorted_lookup_lt. }
  split; [exact Hord|].
  apply NoDup_alt. intros p q m Hp Hq.
  destruct (Nat.lt_trichotomy p q) as [Hlt|[->|Hlt]]; [|done|].
  - destruct (Hord p q m m Hlt Hp Hq) as [?|[_ ?]]; lia.
  - destruct (Hord q p m m Hlt Hq Hp) as [?|[_ ?]]; lia.
Qed.

Lemma messages_firing_order_witness :
  ∃ a, controlSensitizingGraph monotone6 = Success a ∧
    NoDup (res_messages a).
Proof.
  destruct (proj1 (valid_success monotone6) monotone6_valid) as [a Ha].
  exists a. split; [exact Ha|].
  exact (proj2 (messages_firing_order monotone6 a Ha)).
Defined.

(** X5. A rule 5 message of a successful run says "increasing" exactly when
    the six values of its window strictly increase, and "decreasing" exactly
    when they strictly decrease; its span is the six indices ending at its
    last index. *)
Theorem rule5_direction (data : list R) (a : analysis) (inc : bool)
    (lo hi : nat) :
  controlSensitizingGraph data = Success a →
  Rule5Msg inc lo hi ∈ res_messages a →
  5 ≤ hi < length data ∧ lo = hi - 5 ∧
  (inc = true ↔ increasing (at_ data) hi) ∧
  (inc = false ↔ decreasing (at_ data) hi).
Proof.
  intros Hrun Hm.
  apply (elem_of_messages _ _ _ Hrun) in Hm as (i & Hi & He).
  simpl in He. destruct He as (-> & -> & Hg & Ht & Hinc).
  split; [lia|]. split; [done|]. split; [done|].
  split.
  - intros ->. destruct Ht as [Ht|Ht]; [|done].
    apply Hinc in Ht. discriminate.
  - intros Hdec. destruct inc; [|done]. exfalso.
    assert (i - 5 ≤ i - 1 < i) as Hj by lia.
    pose proof (proj1 Hinc eq_refl (i - 1) Hj).
    pose proof (Hdec (i - 1) Hj). lra.
Qed.

Lemma rule5_direction_witness :
  ∃ a, controlSensitizingGraph monotone6 = Success a ∧
    Rule5Msg true 0 5 ∈ res_messages a ∧
    (true = true ↔ increasing (at_ monotone6) 5).
Proof.
  destruct (proj1 (valid_success monotone6) monotone6_valid) as [a Ha].
  exists a.
  assert (Rule5Msg true 0 5 ∈ res_messages a) as Hm.
  { apply (elem_of_messages _ _ _ Ha). exists 5. split; [simpl; lia|].
    simpl. repeat split; try lia.
    - left. apply monotone6_increasing.
    - intros _. apply monotone6_increasing. }
  split; [exact Ha|]. split; [exact Hm|].
  exact (proj1 (proj2 (proj2 (rule5_direction monotone6 a true 0 5 Ha Hm)))).
Defined.

(** ** Rules that exclude each other at an index *)

(** X6. On a successful run rule 6 never fires at an index where rule 1,
    rule 2, rule 3 or rule 8 fires: fifteen points within one deviation
    leave no point at or beyond one deviation in the window. *)
Theorem rule6_excludes (data : list R) (a : analysis) (i : nat) :
  controlSensitizingGraph data = Success a →
  fires_at a 6 i →
  ¬ fires_at a 1 i ∧ ¬ fires_at a 2 i ∧ ¬ fires_at a 3 i ∧ ¬ fires_at a 8 i.
Proof.
  intros Hrun (Hi & Hg & H6)%(fires_at_iff _ _ _ _ Hrun).
  simpl in Hg, H6. unfold trigger6 in H6.
  assert (∀ j, i - 2 ≤ j ≤ i → (-1 < z_of a data j < 1)%R) as Hin.
  { intros j Hj. apply and_comm, Rabs_def2, H6. unfold in_window. lia. }
  assert (∀ j, in_window 3 i j → i - 2 ≤ j ≤ i) as Hw3
    by (unfold in_window; lia).
  assert (∀ j, in_window 5 i j → (-1 < z_of a data j < 1)%R) as Hin5.
  { intros j Hj. apply and_comm, Rabs_def2, H6.
    unfold in_window in *. lia. }
  repeat split.
  - intros (_ & _ & H1)%(fires_at_iff _ _ _ _ Hrun).
    simpl in H1. unfold trigger1 in H1.
    assert (Rabs (z_of a data i) < 1)%R by (apply H6; unfold in_window; lia).
    lra.
  - intros (_ & _ & H2)%(fires_at_iff _ _ _ _ Hrun).
    simpl in H2.
    destruct H2 as [H2|H2];
      destruct H2 as ([|j J] & _ & Hlen & HJ); try discriminate Hlen;
      destruct (HJ j) as [Hj Hz]; try constructor;
      simpl in Hz; pose proof (Hin j (Hw3 j Hj)); lra.
  - intros (_ & _ & H3)%(fires_at_iff _ _ _ _ Hrun).
    simpl in H3.
    destruct H3 as [H3|H3];
      destruct H3 as ([|j J] & _ & Hlen & HJ); try discriminate Hlen;
      destruct (HJ j) as [Hj Hz]; try constructor;
      simpl in Hz; pose proof (Hin5 j Hj); lra.
  - intros (_ & _ & H8 & _)%(fires_at_iff _ _ _ _ Hrun).
    assert (Rabs (z_of a data i) < 1)%R by (apply H6; unfold in_window; lia).
    assert (Rabs (z_of a data i) >= 1)%R by (apply H8; unfold in_window; lia).
    lra.
Qed.

(** X7. On a successful run rule 4 and rule 8 never fire at the same index:
    eight points on one side of the center line do not lie on both sides. *)
Theorem rule4_excludes_rule8 (data : list R) (a : analysis) (i : nat) :
  controlSensitizingGraph data = Success a →
  fires_at a 4 i → ¬ fires_at a 8 i.
Proof.
  intros Hrun (_ & _ & H4)%(fires_at_iff _ _ _ _ Hrun)
    (_ & _ & _ & (j1 & Hj1 & Hp) & (j2 & Hj2 & Hn))%(fires_at_iff _ _ _ _ Hrun).
  destruct H4 as [H4|H4].
  - specialize (H4 j2 Hj2). lra.
  - specialize (H4 j1 Hj1). lra.
Qed.

(** X8. On a successful run rule 5 and rule 7 never fire at the same index:
    the last two steps of a steadily rising or falling run have the same
    sign, those of an alternating run have opposite signs. *)
Theorem rule5_excludes_rule7 (data : list R) (a : analysis) (i : nat) :
  controlSensitizingGraph data = Success a →
  fires_at a 5 i → ¬ fires_at a 7 i.
Proof.
  intros Hrun (_ & _ & H5)%(fires_at_iff _ _ _ _ Hrun)
    (_ & Hg & _ & H7)%(fires_at_iff _ _ _ _ Hrun).
  simpl in Hg. specialize (H7 (i - 2)). unfold diff in H7.
  replace (i - 2 + 1 + 1) with i in H7 by lia.
  replace (i - 2 + 1) with (i - 1) in H7 by lia.
  assert (i - 13 ≤ i - 2 < i - 1) as Hj by lia. specialize (H7 Hj).
  assert (i - 5 ≤ i - 2 < i) as Hj2 by lia.
  assert (i - 5 ≤ i - 1 < i) as Hj1 by lia.
  destruct H5 as [H5|H5];
    pose proof (H5 (i - 2) Hj2) as Ha; pose proof (H5 (i - 1) Hj1) as Hb;
    replace (i - 2 + 1) with (i - 1) in Ha by lia;
    replace (i - 1 + 1) with i in Hb by lia;
    unfold opposite_sign in H7; lra.
Qed.

Lemma halves16_mean : series_mean halves16 = 0%R.
Proof. unfold series_mean, halves16. simpl. lra. Qed.

Lemma halves16_std : series_std 1 halves16 = Some (sqrt (16 / 15)).
Proof.
  rewrite series_std_Some by (simpl; lia). do 2 f_equal.
  unfold sum_sq_dev. rewrite halves16_mean. unfold halves16. simpl. lra.
Qed.

Lemma halves16_success : ∃ a, controlSensitizingGraph halves16 = Success a.
Proof.
  apply (success_of_distinct _ 1%R (-1)%R);
    [simpl; lia|repeat constructor..|lra].
Qed.

Lemma halves16_z a j :
  controlSensitizingGraph halves16 = Success a →
  (j ≤ 7 → 0 < z_of a halves16 j < 1)%R ∧
  (-1 < z_of a halves16 j < 1)%R.
Proof.
  intros Hrun.
  destruct (run_stats _ _ _ _ Hrun halves16_mean halves16_std) as [Hm Hs].
  assert (1 < sqrt (16 / 15))%R as H1.
  { rewrite <- sqrt_1 at 1. apply sqrt_lt_1_alt. lra. }
  unfold z_of, z_at, zscore. rewrite Hm, Hs.
  set (s := sqrt (16 / 15)) in *.
  assert (∀ v, (-1 <= v <= 1)%R → (-1 < (v - 0) / s < 1)%R) as Hb.
  { intros v Hv. split.
    - apply (Rmult_lt_reg_r s); [lra|].
      replace ((v - 0) / s * s)%R with v by (field; lra). lra.
    - apply (Rmult_lt_reg_r s); [lra|].
      replace ((v - 0) / s * s)%R with v by (field; lra). lra. }
  split.
  - intros Hj.
    assert (at_ halves16 j = 1%R) as ->.
    { unfold at_, halves16. do 8 (destruct j as [|j]; [done|]). lia. }
    split; [|apply Hb; lra].
    apply Rdiv_lt_0_compat; lra.
  - apply Hb. unfold at_, halves16.
    do 16 (destruct j as [|j]; [simpl; lra|]). destruct j; simpl; lra.
Qed.

Lemma halves16_rule4 a :
  controlSensitizingGraph halves16 = Success a → fires_at a 4 7.
Proof.
  intros Hrun. apply (fires_at_iff _ _ _ _ Hrun).
  split; [simpl; lia|]. split; [simpl; lia|]. left.
  intros j Hj. unfold in_window in Hj.
  apply (halves16_z a j Hrun). lia.
Qed.

Lemma halves16_rule6 a :
  controlSensitizingGraph halves16 = Success a → fires_at a 6 14.
Proof.
  intros Hrun. apply (fires_at_iff _ _ _ _ Hrun).
  split; [simpl; lia|]. split; [simpl; lia|].
  intros j Hj. apply Rabs_def1; apply (halves16_z a j Hrun).
Qed.

Lemma rule6_excludes_witness :
  ∃ a, controlSensitizingGraph halves16 = Success a ∧
    fires_at a 6 14 ∧
    ¬ fires_at a 1 14 ∧ ¬ fires_at a 2 14 ∧ ¬ fires_at a 3 14 ∧
    ¬ fires_at a 8 14.
Proof.
  destruct halves16_success as [a Ha]. exists a.
  split; [exact Ha|]. split; [exact (halves16_rule6 a Ha)|].
  exact (rule6_excludes halves16 a 14 Ha (halves16_rule6 a Ha)).
Defined.

Lemma rule4_excludes_rule8_witness :
  ∃ a, controlSensitizingGraph halves16 = Success a ∧
    fires_at a 4 7 ∧ ¬ fires_at a 8 7.
Proof.
  destruct halves16_success as [a Ha]. exists a.
  split; [exact Ha|]. split; [exact (halves16_rule4 a Ha)|].
  exact (rule4_excludes_rule8 halves16 a 7 Ha (halves16_rule4 a Ha)).
Defined.

Lemma monotone6_rule5 a :
  controlSensitizingGraph monotone6 = Success a → fires_at a 5 5.
Proof.
  intros Hrun. apply (fires_at_iff _ _ _ _ Hrun).
  split; [simpl; lia|]. split; [simpl; lia|]. left.
  apply monotone6_increasing.
Qed.

Lemma rule5_excludes_rule7_witness :
  ∃ a, controlSensitizingGraph monotone6 = Success a ∧
    fires_at a 5 5 ∧ ¬ fires_at a 7 5.
Proof.
  destruct (proj1 (valid_success monotone6) monotone6_valid) as [a Ha].
  exists a.
  split; [exact Ha|]. split; [exact (monotone6_rule5 a Ha)|].
  exact (rule5_excludes_rule7 monotone6 a 5 Ha (monotone6_rule5 a Ha)).
Defined.

(** ** Sums, means and deviations under a change of unit *)

Lemma sum_R_affine c b l :
  sum_R (affine c b <$> l) = (c * sum_R l + INR (length l) * b)%R.
Proof.
  induction l as [|x l IH].
  - simpl. lra.
  - rewrite fmap_cons. cbn [sum_R foldr length].
    fold (sum_R (affine c b <$> l)). fold (sum_R l).
    rewrite IH, S_INR. unfold affine. lra.
Qed.

Lemma INR_length_pos {A} (l : list A) : l ≠ [] → (0 < INR (length l))%R.
Proof. intros H. apply lt_0_INR. destruct l; [done|simpl; lia]. Qed.

Lemma series_mean_affine c b l :
  l ≠ [] →
  series_mean (affine c b <$> l) = (c * series_mean l + b)%R.
Proof.
  intros Hne. pose proof (INR_length_pos l Hne).
  unfold series_mean. rewrite sum_R_affine, length_fmap. field. lra.
Qed.

Lemma sum_R_scale c (f : R → R) l :
  sum_R ((λ x, c * f x)%R <$> l) = (c * sum_R (f <$> l))%R.
Proof.
  induction l as [|x l IH].
  - simpl. lra.
  - rewrite !fmap_cons. cbn [sum_R foldr].
    fold (sum_R ((λ x, c * f x)%R <$> l)). fold (sum_R (f <$> l)).
    rewrite IH. lra.
Qed.

Lemma sum_sq_dev_affine c b l :
  l ≠ [] →
  sum_sq_dev (affine c b <$> l) = (c * c * sum_sq_dev l)%R.
Proof.
  intros Hne. unfold sum_sq_dev. cbv zeta.
  rewrite series_mean_affine by done.
  rewrite <- list_fmap_compose, <- sum_R_scale.
  f_equal. apply list_fmap_ext. intros _ x _. unfold affine. simpl. ring.
Qed.



(** ** The column of ten zeros and a one *)





(** ** Rule 4 needs points outside its window *)







(** ** The chart never looks up a point that is not there *)

(** X14. On a successful run the chart data is always there: no flagged
    index is looked up outside the z-score list.  The first series has the
    indices [0 .. n-1] and as many z-scores; the highlighted series is drawn
    exactly when some index is flagged, and then has the flagged indices and,
    for each, the z-score of that very point. *)
Theorem chart_points_defined (data : list R) (a : analysis) :
  controlSensitizingGraph data = Success a →
  chart_points (scan data (res_mean a) (res_std a))
  = Some ((seq 0 (res_n a), zscore (res_mean a) (res_std a) <$> data),
          match res_problem_points a with
          | [] => None
          | _ :: _ => Some (res_problem_points a,
                            z_of a data <$> res_problem_points a)
          end) ∧
  length (zscore (res_mean a) (res_std a) <$> data) = res_n a.
Proof.
  intros Hrun.
  pose proof (run_inv _ _ Hrun) as (Hlen & Hn & _ & _ & _ & Hmsg & Hpp).
  split; [|by rewrite length_fmap].
  unfold chart_points. rewrite scan_eq. cbn [zScores problemPoints].
  rewrite <- Hmsg, <- Hpp, length_fmap, <- Hn. unfold range.
  rewrite Nat.sub_0_r.
  destruct (res_problem_points a) as [|k l] eqn:E; [done|]. rewrite <- E.
  assert (mapM (λ i, (zscore (res_mean a) (res_std a) <$> data) !! i)
               (res_problem_points a)
          = Some (z_of a data <$> res_problem_points a)) as ->.
  { apply mapM_Some_2, Forall2_fmap_r, Forall_Forall2_diag, Forall_forall.
    intros i Hi.
    apply (elem_of_problem_points _ _ _ Hrun) in Hi as (m & Hm & Hi).
    destruct (message_span _ _ _ Hrun Hm) as (Hhi & _).
    rewrite list_lookup_fmap, lookup_at by lia. reflexivity. }
  reflexivity.
Qed.

Lemma chart_points_defined_witness :
  ∃ a, controlSensitizingGraph monotone6 = Success a ∧
    chart_points (scan monotone6 (res_mean a) (res_std a))
    = Some ((seq 0 (res_n a),
             zscore (res_mean a) (res_std a) <$> monotone6),
            match res_problem_points a with
            | [] => None
            | _ :: _ => Some (res_problem_points a,
                              z_of a monotone6 <$> res_problem_points a)
            end).
Proof.
  destruct (proj1 (valid_success monotone6) monotone6_valid) as [a Ha].
  exists a. split; [exact Ha|].
  exact (proj1 (chart_points_defined monotone6 a Ha)).
Defined.

(** ** Mirroring the column about zero *)

Lemma at_opp (data : list R) j : at_ (Ropp <$> data) j = (- at_ data j)%R.
Proof.
  unfold at_. rewrite !nth_lookup, list_lookup_fmap.
  destruct (data !! j); simpl; lra.
Qed.

Lemma at_least_ext (z z' : nat → R) k w i (P P' : R → Prop) :
  (∀ j, P (z' j) ↔ P' (z j)) →
  at_least z' k w i P ↔ at_least z k w i P'.
Proof.
  intros H. unfold at_least.
  split; intros (J & HJ & Hlen & Hall); exists J;
    (split; [done|split; [done|]]); intros j Hj;
    destruct (Hall j Hj) as [Hw HP]; (split; [done|by apply H]).
Qed.

Lemma trigger_mirror (x z x' z' : nat → R) r i :
  (∀ j, x' j = (- x j)%R) → (∀ j, z' j = (- z j)%R) →
  trigger x' z' r i ↔ trigger x z r i.
Proof.
  intros Hx Hz.
  destruct r as [|[|[|[|[|[|[|[|[|r]]]]]]]]]; simpl; try done.
  - unfold trigger1. by rewrite Hz, Rabs_Ropp.
  - unfold trigger2.
    rewrite (at_least_ext z z' 2 3 i (λ v, v >= 2)%R (λ v, v <= -2)%R)
      by (intros j; rewrite Hz; split; lra).
    rewrite (at_least_ext z z' 2 3 i (λ v, v <= -2)%R (λ v, v >= 2)%R)
      by (intros j; rewrite Hz; split; lra).
    tauto.
  - unfold trigger3.
    rewrite (at_least_ext z z' 4 5 i (λ v, v >= 1)%R (λ v, v <= -1)%R)
      by (intros j; rewrite Hz; split; lra).
    rewrite (at_least_ext z z' 4 5 i (λ v, v <= -1)%R (λ v, v >= 1)%R)
      by (intros j; rewrite Hz; split; lra).
    tauto.
  - unfold trigger4.
    split; (intros [H|H]; [right|left]); intros j Hj;
      specialize (H j Hj); rewrite ?Hz in *; lra.
  - unfold trigger5, increasing, decreasing.
    split; (intros [H|H]; [right|left]); intros j Hj;
      specialize (H j Hj); rewrite ?Hx in *; lra.
  - unfold trigger6.
    split; intros H j Hj; specialize (H j Hj);
      rewrite ?Hz, ?Rabs_Ropp in *; done.
  - unfold trigger7, diff, opposite_sign.
    split; intros [H1 H2]; (split; intros j Hj;
      [specialize (H1 j Hj)|specialize (H2 j Hj)]);
      rewrite ?Hx in *; lra.
  - unfold trigger8.
    split; intros (H1 & (j1 & Hj1 & Hp) & (j2 & Hj2 & Hn)).
    + split; [|split].
      * intros j Hj. specialize (H1 j Hj).
        by rewrite Hz, Rabs_Ropp in H1.
      * exists j2. split; [done|]. rewrite Hz in Hn. lra.
      * exists j1. split; [done|]. rewrite Hz in Hp. lra.
    + split; [|split].
      * intros j Hj. specialize (H1 j Hj). by rewrite Hz, Rabs_Ropp.
      * exists j2. split; [done|]. rewrite Hz. lra.
      * exists j1. split; [done|]. rewrite Hz. lra.
Qed.

Lemma problem_points_by_firing data a k :
  controlSensitizingGraph data = Success a →
  k ∈ res_problem_points a ↔
  ∃ r i, fires_at a r i ∧ in_window (window_size r) i k.
Proof.
  intros Hrun. rewrite (elem_of_problem_points _ _ _ Hrun). split.
  - intros (m & Hm & Hk). exists (msg_rule m), (msg_hi m). split.
    + by exists m.
    + by apply (span_window _ _ _ _ Hrun Hm).
  - intros (r & i & (m & Hm & <- & <-) & Hk). exists m. split; [done|].
    by apply (span_window _ _ _ _ Hrun Hm).
Qed.

Lemma StronglySorted_lt_NoDup (l : list nat) :
  StronglySorted lt l → NoDup l.
Proof.
  induction 1 as [|k l Hl IH Hk]; constructor; [|done].
  intros Hin. rewrite Forall_forall in Hk. specialize (Hk k Hin). lia.
Qed.

(** X15. Mirroring the column about zero ([x ↦ -x]) keeps the analysis:
    the run still succeeds, with the mean mirrored and the same deviation;
    every rule fires at exactly the same indices, and the flagged indices
    are the same list. *)
Theorem mirror_symmetry (data : list R) (a : analysis) :
  controlSensitizingGraph data = Success a →
  ∃ a', controlSensitizingGraph (Ropp <$> data) = Success a' ∧
    res_n a' = res_n a ∧ res_mean a' = (- res_mean a)%R ∧
    res_std a' = res_std a ∧
    (∀ r i, fires_at a' r i ↔ fires_at a r i) ∧
    res_problem_points a' = res_problem_points a.
Proof.
  intros Hrun.
  pose proof (run_inv _ _ Hrun) as (Hlen & Hn & Hm & Hs & Hne & _).
  assert (data ≠ []) as Hdata by (intros ->; simpl in Hlen; lia).
  assert (Ropp <$> data = affine (-1) 0 <$> data) as Haff
    by (apply list_fmap_ext; intros; unfold affine; lra).
  assert (series_mean (Ropp <$> data) = (- res_mean a)%R) as Hm'.
  { rewrite Haff, series_mean_affine, Hm by done. lra. }
  assert (series_std 1 (Ropp <$> data) = Some (res_std a)) as Hs'.
  { rewrite series_std_Some in Hs |- * by (by rewrite ?length_fmap).
    rewrite Haff, length_fmap, sum_sq_dev_affine by done.
    rewrite <- Hs. do 2 f_equal. lra. }
  destruct (run_success (Ropp <$> data)) as [a' Hrun'].
  { by rewrite length_fmap. }
  { rewrite Hs'. congruence. }
  exists a'. split; [done|].
  pose proof (run_inv _ _ Hrun') as (_ & Hn' & Hma & Hsa & _).
  rewrite length_fmap in Hn'.
  assert (res_std a' = res_std a) as Hstd by congruence.
  assert (res_mean a' = (- res_mean a)%R) as Hmean by congruence.
  assert (∀ r i, fires_at a' r i ↔ fires_at a r i) as Hfires.
  { intros r i.
    rewrite (fires_at_iff _ _ _ _ Hrun'), (fires_at_iff _ _ _ _ Hrun).
    rewrite length_fmap.
    rewrite (trigger_mirror (at_ data) (z_of a data)); [done|apply at_opp|].
    intros j. unfold z_of, z_at, zscore.
    rewrite at_opp, Hstd, Hmean. field. done. }
  split; [lia|]. split; [done|]. split; [done|]. split; [done|].
  pose proof (problem_points_sorted _ _ Hrun) as Hsorted.
  pose proof (problem_points_sorted _ _ Hrun') as Hsorted'.
  apply (StronglySorted_unique_strong lt); [intros; lia|done..|].
  apply NoDup_Permutation; [by apply StronglySorted_lt_NoDup..|].
  intros k.
  rewrite (problem_points_by_firing _ _ _ Hrun'),
    (problem_points_by_firing _ _ _ Hrun).
  split; intros (r & i & Hf & Hk); exists r, i; (split; [|done]);
    by apply Hfires.
Qed.

Lemma mirror_symmetry_witness :
  ∃ a, controlSensitizingGraph monotone6 = Success a ∧
  ∃ a', controlSensitizingGraph (Ropp <$> monotone6) = Success a' ∧
    res_problem_points a' = res_problem_points a.
Proof.
  destruct (proj1 (valid_success monotone6) monotone6_valid) as [a Ha].
  exists a. split; [exact Ha|].
  destruct (mirror_symmetry monotone6 a Ha) as (a' & Ha' & _ & _ & _ & _ & Hp).
  exists a'. split; [exact Ha'|exact Hp].
Defined.

(** ** The z-score in a rule 1 message *)




(** ** Rule 7 fires only on alternating steps *)

(** X17. On a successful run rule 7 fires at [i] only if [i >= 13], the
    thirteen steps between the raw values [x[i-13..i]] are all non-zero and
    every two adjacent steps have opposite signs; its message then spans
    [i-13 .. i] and these fourteen indices are flagged.  On
    [5,4,6,3,7,2,8,1,9,0,10,-1,11,-2] it fires at index 13 with span
    [0 .. 13], and all fourteen indices are flagged. *)
Theorem rule7_alternating_sound :
  (∀ (data : list R) (a : analysis) (i : nat),
     controlSensitizingGraph data = Success a →
     fires_at a 7 i →
     13 ≤ i < length data ∧
     (∀ j, i - 13 ≤ j < i → (at_ data (j + 1) - at_ data j ≠ 0)%R) ∧
     (∀ j, i - 13 ≤ j < i - 1 →
        opposite_sign (at_ data (j + 1) - at_ data j)
                      (at_ data (j + 1 + 1) - at_ data (j + 1))) ∧
     Rule7Msg (i - 13) i ∈ res_messages a ∧
     ∀ k, i - 13 ≤ k ≤ i → k ∈ res_problem_points a) ∧
  ∃ a, controlSensitizingGraph alternating14 = Success a ∧
    fires_at a 7 13 ∧
    Rule7Msg 0 13 ∈ res_messages a ∧
    (∀ m, m ∈ res_messages a → msg_rule m = 7 → m = Rule7Msg 0 13) ∧
    res_problem_points a = seq 0 14.
Proof.
  split.
  - intros data a i Hrun Hf.
    pose proof (proj1 (fires_at_iff _ _ _ _ Hrun) Hf) as (Hi & Hw & Hn & Ha).
    simpl in Hw. split; [lia|]. split; [exact Hn|]. split; [exact Ha|].
    split.
    + destruct Hf as (m & Hin & Hr & Hhi).
      pose proof Hin as (i' & _ & He)%(elem_of_messages _ _ _ Hrun).
      destruct m; try discriminate Hr. simpl in He, Hhi.
      destruct He as (-> & -> & _). by subst.
    + intros k Hk. apply (fires_at_flags data a 7 i k Hrun Hf).
      unfold in_window. simpl. lia.
  - destruct alternating14_success as [a Hrun].
    exists a. split; [done|].
    assert (Rule7Msg 0 13 ∈ res_messages a) as Hm.
    { apply (elem_of_messages _ _ _ Hrun). exists 13. split; [simpl; lia|].
      simpl. repeat split; try lia; apply alternating14_trigger. }
    split; [by exists (Rule7Msg 0 13)|]. split; [done|]. split.
    + intros m Hm' Hr.
      apply (elem_of_messages _ _ _ Hrun) in Hm' as (i & Hi & He).
      destruct m as [| | | | | |lo hi|]; try discriminate Hr.
      simpl in He, Hi. destruct He as (-> & -> & Hg & _).
      by assert (i = 13) as -> by lia.
    + by apply (problem_points_full alternating14 a (Rule7Msg 0 13)).
Qed.

Lemma rule7_alternating_sound_witness :
  ∃ a, controlSensitizingGraph alternating14 = Success a ∧
    fires_at a 7 13 ∧
    13 ≤ 13 < length alternating14 ∧
    Rule7Msg (13 - 13) 13 ∈ res_messages a ∧
    ∀ k, 13 - 13 ≤ k ≤ 13 → k ∈ res_problem_points a.
Proof.
  destruct (proj2 rule7_alternating_sound) as (a & Ha & Hf & _).
  exists a. split; [exact Ha|]. split; [exact Hf|].
  destruct (proj1 rule7_alternating_sound alternating14 a 13 Ha Hf)
    as (Hi & _ & _ & Hm & Hk).
  split; [exact Hi|]. split; [exact Hm|exact Hk].
Defined.
